(** * Gapminder dashboard: the data normalisation pipeline of [app/app.py]

    The development embeds the pure part of the Streamlit script: the number
    parser [parse_number], the pipeline [load_and_process_data] (forward fill,
    melt, numeric coercion, year filter, two inner joins, dropna, positivity
    filter, integer years) and the first lines of the script that consume its
    result (the empty-dataset stop, the [years] and [countries] summaries).

    Python floats are IEEE binary64 numbers: they are Rocq's primitive floats,
    and decimal literals are converted with the rounding functions of
    [SpecFloat] (round to nearest, ties to even), as [float()] does.
    Python strings are modelled by [string]; a character stands for the code
    point of the same number (0 to 255).

    The [st.write] progress messages and the [st.cache_data] decorator do not
    change what the function returns and are left out; an exception that
    nobody catches ends the run. *)

From Stdlib Require Import ZArith Floats List String Ascii Bool Lia.
From Stdlib Require Import Permutation Sorted.
Import ListNotations.
Open Scope Z_scope.

(** ** Python values, exceptions and builtins *)

Module Py.

Inductive exn : Type :=
| ValueError
| OverflowError
| TypeError
| FileNotFoundError.

Inductive result (A : Type) : Type :=
| Ok (a : A)
| Raise (e : exn).
Arguments Ok {A} a.
Arguments Raise {A} e.

Definition bind {A B : Type} (r : result A) (k : A -> result B) : result B :=
  match r with
  | Ok a => k a
  | Raise e => Raise e
  end.

(** [Series.apply(f)]: the calls are made in order, the first exception
    raised leaves the loop. *)
Fixpoint mapM {A B : Type} (f : A -> result B) (l : list A) : result (list B) :=
  match l with
  | [] => Ok []
  | a :: l' =>
      bind (f a) (fun b => bind (mapM f l') (fun bs => Ok (b :: bs)))
  end.

(** A cell of a data frame, or an argument of [parse_number]: a Python
    [int], a [float] ([np.nan] is the missing marker) or a [str]. *)
Inductive value : Type :=
| VInt (z : Z)
| VFloat (f : float)
| VStr (s : string).

Definition nan : float := PrimFloat.nan.

(** [pd.isna(value)] on a scalar. *)
Definition isna (v : value) : bool :=
  match v with
  | VFloat f => PrimFloat.is_nan f
  | _ => false
  end.

Definition chars (s : string) : list ascii := list_ascii_of_string s.
Definition str (l : list ascii) : string := string_of_list_ascii l.

Definition code (c : ascii) : Z := Z.of_nat (nat_of_ascii c).

(** [str.isspace] on the code points below 256. *)
Definition isspace (c : ascii) : bool :=
  let n := code c in
  ((9 <=? n) && (n <=? 13)) || ((28 <=? n) && (n <=? 32))
  || (n =? 133) || (n =? 160).

(** The blanks [float()] skips at both ends: the ASCII white space and the
    non-ASCII spaces; the separators 28 to 31 are not among them. *)
Definition float_isspace (c : ascii) : bool :=
  let n := code c in
  ((9 <=? n) && (n <=? 13)) || (n =? 32) || (n =? 133) || (n =? 160).

Fixpoint dropwhile (p : ascii -> bool) (l : list ascii) : list ascii :=
  match l with
  | [] => []
  | c :: l' => if p c then dropwhile p l' else l
  end.

Definition strip_with (p : ascii -> bool) (l : list ascii) : list ascii :=
  rev (dropwhile p (rev (dropwhile p l))).

(** [s.strip()] *)
Definition strip (s : string) : string := str (strip_with isspace (chars s)).

(** [s.endswith(c)] for a one-character suffix. *)
Definition endswith (s : string) (c : ascii) : bool :=
  match rev (chars s) with
  | [] => false
  | c' :: _ => Ascii.eqb c' c
  end.

(** [s[:-1]] *)
Definition but_last (s : string) : string := str (removelast (chars s)).

Definition isdigit (c : ascii) : bool := (48 <=? code c) && (code c <=? 57).

(** Underscores of a numeric literal: each one stands between two digits;
    they are removed before the conversion. [prev] is the character read
    before, [None] at the start. *)
Fixpoint drop_underscores (prev : option ascii) (l : list ascii)
  : option (list ascii) :=
  match l with
  | [] =>
      match prev with
      | Some p => if Ascii.eqb p "_" then None else Some []
      | None => Some []
      end
  | c :: l' =>
      let prev_digit := match prev with Some p => isdigit p | None => false end in
      let prev_under := match prev with Some p => Ascii.eqb p "_" | None => false end in
      if Ascii.eqb c "_" then
        if prev_digit then drop_underscores (Some c) l' else None
      else if prev_under && negb (isdigit c) then None
      else option_map (cons c) (drop_underscores (Some c) l')
  end.

(** A maximal run of decimal digits: the number read so far, how many
    digits were read, and what follows. *)
Fixpoint digits (acc n : Z) (l : list ascii) : Z * Z * list ascii :=
  match l with
  | [] => (acc, n, [])
  | c :: l' =>
      if isdigit c then digits (10 * acc + (code c - 48)) (n + 1) l'
      else (acc, n, l)
  end.

Definition sign (l : list ascii) : bool * list ascii :=
  match l with
  | c :: l' =>
      if Ascii.eqb c "-" then (true, l')
      else if Ascii.eqb c "+" then (false, l')
      else (false, l)
  | [] => (false, [])
  end.

(** [digits [. digits] [(e|E) [sign] digits]], with at least one digit in
    the mantissa; an exponent mark without digits is not consumed. The
    result is the integer mantissa, the decimal exponent and the rest. *)
Definition decimal (l : list ascii) : option (Z * Z * list ascii) :=
  let '(m1, n1, r1) := digits 0 0 l in
  let '(m2, n2, r2) :=
    match r1 with
    | c :: r => if Ascii.eqb c "." then digits m1 0 r else (m1, 0, r1)
    | [] => (m1, 0, r1)
    end in
  if n1 + n2 =? 0 then None
  else
    match r2 with
    | c :: r3 =>
        if Ascii.eqb c "e" || Ascii.eqb c "E" then
          let '(neg, r4) := sign r3 in
          let '(ex, nx, r5) := digits 0 0 r4 in
          if nx =? 0 then Some (m2, - n2, r2)
          else Some (m2, (if neg then - ex else ex) - n2, r5)
        else Some (m2, - n2, r2)
    | [] => Some (m2, - n2, r2)
    end.

(** The quotient [n / d] rounded to the nearest binary64 number. *)
Definition div_round (neg : bool) (n d : positive) : spec_float :=
  let '(q, e, l) := SFdiv_core_binary prec emax (Z.pos n) 0 (Z.pos d) 0 in
  binary_round_aux prec emax neg q e l.

(** The binary64 number nearest to [(-1)^neg * m * 10^e]. *)
Definition decimal_to_float (neg : bool) (m e : Z) : float :=
  match m with
  | Z0 => SF2Prim (S754_zero neg)
  | Zpos p =>
      if 0 <=? e then
        SF2Prim (binary_normalize prec emax
                   ((if neg then Z.neg p else Z.pos p) * 10 ^ e) 0 false)
      else
        match 10 ^ (- e) with
        | Zpos d => SF2Prim (div_round neg p d)
        | _ => nan
        end
  | Zneg _ => nan
  end.

Definition lower (c : ascii) : ascii :=
  if (65 <=? code c) && (code c <=? 90)
  then ascii_of_nat (nat_of_ascii c + 32) else c.

Definition inf_or_nan (neg : bool) (l : list ascii) : option float :=
  let w := str (map lower l) in
  if String.eqb w "inf" || String.eqb w "infinity"
  then Some (if neg then neg_infinity else infinity)
  else if String.eqb w "nan" then Some nan
  else None.

(** [float(s)] on a string: [None] stands for [ValueError]. *)
Definition float_of_chars (l : list ascii) : option float :=
  match drop_underscores None (strip_with float_isspace l) with
  | None => None
  | Some l1 =>
      let '(neg, l2) := sign l1 in
      match decimal l2 with
      | Some (m, e, []) => Some (decimal_to_float neg m e)
      | Some (_, _, _ :: _) => None
      | None => inf_or_nan neg l2
      end
  end.

Definition float_of_str (s : string) : result float :=
  match float_of_chars (chars s) with
  | Some f => Ok f
  | None => Raise ValueError
  end.

(** [float(z)] on an [int]: the nearest float, [OverflowError] when that
    is beyond the largest finite one. *)
Definition float_of_int (z : Z) : result float :=
  match binary_normalize prec emax z 0 false with
  | S754_infinity _ => Raise OverflowError
  | sf => Ok (SF2Prim sf)
  end.

End Py.
Import Py.

Notation "x <- c1 ;; c2" := (bind c1 (fun x => c2))
  (at level 61, c1 at next level, right associativity).

(** ** [parse_number] (app.py, lines 11 to 37) *)

Definition parse_number (value : value) : result float :=
  if isna value || (match value with VStr s => String.eqb s "" | _ => false end)
  then Ok nan
  else
    match value with
    | VInt z => float_of_int z
    | VFloat f => Ok f
    | VStr s =>
        let value := strip s in
        if endswith value "k" then
          x <- float_of_str (but_last value) ;; Ok (x * 1000)%float
        else if endswith value "M" then
          x <- float_of_str (but_last value) ;; Ok (x * 1000000)%float
        else if endswith value "B" then
          x <- float_of_str (but_last value) ;; Ok (x * 1000000000)%float
        else
          match float_of_str value with
          | Ok x => Ok x
          | Raise _ => Ok nan
          end
    end.

(** ** Data frames and the pandas operations of the pipeline *)

Module Pd.

(** A wide table as [pd.read_csv] returns it: the [country] column comes
    first and holds text ([None] for an empty field, which pandas reads as
    NaN); [columns] are the headers of the other columns, and every row has
    one cell per header. The headers are the years of the table: a file
    with a column called as the value column that [melt] is to make
    (population, life_expectancy or gni_per_capita), which [melt] does not
    accept, is outside this model. *)
Record row : Type := { country : option string; cells : list value }.

Record frame : Type := { columns : list string; rows : list row }.

(** One observation of a long table: the year is the header (a string)
    after [melt] and a number after [pd.to_numeric]; the value is a raw cell
    until it is parsed. *)
Record obs (Y V : Type) : Type :=
  { o_country : option string; o_year : Y; o_value : V }.
Arguments o_country {Y V} _.
Arguments o_year {Y V} _.
Arguments o_value {Y V} _.

(** A row of the merged table. *)
Record merged (Y : Type) : Type :=
  { m_country : option string;
    m_year : Y;
    population : float;
    life_expectancy : float;
    gni_per_capita : float }.
Arguments m_country {Y} _.
Arguments m_year {Y} _.
Arguments population {Y} _.
Arguments life_expectancy {Y} _.
Arguments gni_per_capita {Y} _.

Definition country_cell (c : option string) : value :=
  match c with
  | Some s => VStr s
  | None => VFloat nan
  end.

(** Forward fill along one row: a missing cell takes the last cell to its
    left that is not missing, when there is one. *)
Fixpoint ffill_cells (last : option value) (l : list value) : list value :=
  match l with
  | [] => []
  | v :: l' =>
      if isna v then
        match last with
        | Some w => w :: ffill_cells last l'
        | None => v :: ffill_cells last l'
        end
      else v :: ffill_cells (Some v) l'
  end.

(** [df.ffill(axis=1)]: the fill runs over all the columns of the row, the
    country cell included; the frame holds columns of different types, so
    pandas fills it as one table of objects. *)
Definition ffill_row (r : row) : row :=
  {| country := country r;
     cells := tl (ffill_cells None (country_cell (country r) :: cells r)) |}.

Definition ffill (df : frame) : frame :=
  {| columns := columns df; rows := map ffill_row (rows df) |}.

(** [df.melt(id_vars=["country"], var_name="year", value_name=...)]: the
    columns one after the other, each with all the rows in order. *)
Definition melt (df : frame) : list (obs string value) :=
  flat_map
    (fun j : nat =>
       map (fun r => {| o_country := country r;
                        o_year := nth j (columns df) ""%string;
                        o_value := nth j (cells r) (VFloat nan) |})
           (rows df))
    (seq 0 (List.length (columns df))).

Definition map_year {Y Y' V : Type} (f : Y -> Y') (l : list (obs Y V))
  : list (obs Y' V) :=
  map (fun o => {| o_country := o_country o; o_year := f (o_year o);
                   o_value := o_value o |}) l.

Definition map_value {Y V V' : Type} (f : V -> V') (l : list (obs Y V))
  : list (obs Y V') :=
  map (fun o => {| o_country := o_country o; o_year := o_year o;
                   o_value := f (o_value o) |}) l.

(** [series.apply(f)] on the value column, [f] may raise. *)
Definition apply_value {Y V V' : Type} (f : V -> result V') (l : list (obs Y V))
  : result (list (obs Y V')) :=
  mapM (fun o => v <- f (o_value o) ;;
                 Ok {| o_country := o_country o; o_year := o_year o;
                       o_value := v |}) l.

(** Equality of join keys: pandas matches a missing key with a missing key. *)
Definition country_eqb (a b : option string) : bool :=
  match a, b with
  | Some s, Some t => String.eqb s t
  | None, None => true
  | _, _ => false
  end.

Definition year_eqb (x y : float) : bool :=
  (x =? y)%float || (PrimFloat.is_nan x && PrimFloat.is_nan y).

Definition key : Type := (option string * float)%type.

Definition key_eqb (k1 k2 : key) : bool :=
  country_eqb (fst k1) (fst k2) && year_eqb (snd k1) (snd k2).

(** The join key of an observation. *)
Definition okey {V : Type} (o : obs float V) : key := (o_country o, o_year o).

(** [pd.merge(left, right, on=["country", "year"], how="inner")]: the rows
    of [left] in order, each with its matches of [right] in order. *)
Definition merge {L R O : Type} (lkey : L -> key) (rkey : R -> key)
  (mk : L -> R -> O) (left : list L) (right : list R) : list O :=
  flat_map
    (fun l => map (mk l) (filter (fun r => key_eqb (lkey l) (rkey r)) right))
    left.

(** [series.unique()]: the distinct values in order of first appearance. *)
Fixpoint unique {A : Type} (eqb : A -> A -> bool) (l : list A) : list A :=
  match l with
  | [] => []
  | a :: l' => a :: filter (fun b => negb (eqb a b)) (unique eqb l')
  end.

(** [series.astype(int)] on one float: the fraction is cut off; pandas
    refuses NaN and the infinities. *)
Definition astype_int (f : float) : result Z :=
  match Prim2SF f with
  | S754_zero _ => Ok 0
  | S754_finite s m e =>
      let a := if 0 <=? e then Z.pos m * 2 ^ e else Z.pos m / 2 ^ (- e) in
      Ok (if s then - a else a)
  | S754_infinity _ => Raise ValueError
  | S754_nan => Raise ValueError
  end.

End Pd.
Import Pd.

(** [sorted(l)]: insertion into the sorted rest gives the list Python's sort
    returns when the order is total. *)
Fixpoint insert_by {A : Type} (leb : A -> A -> bool) (a : A) (l : list A) : list A :=
  match l with
  | [] => [a]
  | b :: l' => if leb a b then a :: l else b :: insert_by leb a l'
  end.

Fixpoint sorted_by {A : Type} (leb : A -> A -> bool) (l : list A) : list A :=
  match l with
  | [] => []
  | a :: l' => insert_by leb a (sorted_by leb l')
  end.

Fixpoint somes {A : Type} (l : list (option A)) : option (list A) :=
  match l with
  | [] => Some []
  | Some a :: l' => option_map (cons a) (somes l')
  | None :: _ => None
  end.

(** [sorted] on the values of the country column: strings compare by code
    points; a NaN among them cannot be compared with a string. *)
Definition sorted_countries (l : list (option string)) : result (list (option string)) :=
  match somes l with
  | Some names => Ok (map Some (sorted_by String.leb names))
  | None => if (List.length l <=? 1)%nat then Ok l else Raise TypeError
  end.

(** The blanks the number parser of pandas skips at both ends: the ASCII
    white space and nothing else. *)
Definition ascii_isspace (c : ascii) : bool :=
  let n := code c in
  ((9 <=? n) && (n <=? 13)) || (n =? 32).

(** The reference conversion of the text of a header or cell by
    [pd.to_numeric] with [errors='coerce']: a decimal literal with an
    optional sign, between ASCII blanks, gives the float nearest to it; the
    words inf and infinity, with an optional sign and nothing around them,
    give an infinity; any other text gives NaN, also one with an underscore
    between its digits or with a no-break space at an end, which [float]
    would accept. *)
Definition to_numeric_dec (s : string) : float :=
  let '(neg, l) := sign (strip_with ascii_isspace (chars s)) in
  match decimal l with
  | Some (m, e, []) => decimal_to_float neg m e
  | _ =>
      let '(neg, w) := sign (chars s) in
      let w := str (map lower w) in
      if String.eqb w "inf" || String.eqb w "infinity"
      then (if neg then neg_infinity else infinity)
      else nan
  end.

(** The float nearest to an integer. *)
Definition Z_to_float (z : Z) : float :=
  SF2Prim (binary_normalize prec emax z 0 false).

(** The integer that a header made of decimal digits only stands for. *)
Definition header_int (h : string) : option Z :=
  match digits 0 0 (chars h) with
  | (n, k, []) => if 0 <? k then Some n else None
  | _ => None
  end.

(** A conversion that reads every header of decimal digits as the integer
    it stands for, as [pd.to_numeric] does; the integers are those a float
    holds exactly. *)
Definition reads_integers (to_numeric_str : string -> float) : Prop :=
  forall h n, header_int h = Some n -> n < 2 ^ 53 ->
              to_numeric_str h = Z_to_float n.

(** ** The pipeline (app.py, lines 39 to 120) *)

(** The files the script can open: a path gives the table [pd.read_csv]
    returns for it, or nothing when no file is there. *)
Definition filesystem : Type := string -> option frame.

Definition exists_path (fs : filesystem) (p : string) : bool :=
  match fs p with Some _ => true | None => false end.

Definition read_csv (fs : filesystem) (p : string) : result frame :=
  match fs p with
  | Some df => Ok df
  | None => Raise FileNotFoundError
  end.

Definition min_year : float := 1990%float.
Definition max_year : float := 2023%float.

Definition in_years (y : float) : bool :=
  (min_year <=? y)%float && (y <=? max_year)%float.

Definition year_in_range {V : Type} (o : obs float V) : bool :=
  in_years (o_year o).

Definition not_missing (m : merged float) : bool :=
  negb (isna (country_cell (m_country m)))
  && negb (PrimFloat.is_nan (m_year m))
  && negb (PrimFloat.is_nan (population m))
  && negb (PrimFloat.is_nan (life_expectancy m))
  && negb (PrimFloat.is_nan (gni_per_capita m)).

Definition all_positive (m : merged float) : bool :=
  (0 <? population m)%float
  && (0 <? life_expectancy m)%float
  && (0 <? gni_per_capita m)%float.

Definition year_to_int (m : merged float) : result (merged Z) :=
  y <- astype_int (m_year m) ;;
  Ok {| m_country := m_country m; m_year := y;
        population := population m;
        life_expectancy := life_expectancy m;
        gni_per_capita := gni_per_capita m |}.

(** Lines 95 to 97: the fixed range of years, on one tidy table. *)
Definition restrict_years {V : Type} (tidy : list (obs float V))
  : list (obs float V) :=
  filter year_in_range tidy.

(** Lines 100 and 101: population joined with life expectancy, the result
    joined with GNI. *)
Definition align (pop_filtered life_filtered gni_filtered : list (obs float float))
  : list (merged float) :=
  let merged1 :=
    merge okey okey
          (fun p l => {| o_country := o_country p; o_year := o_year p;
                         o_value := (o_value p, o_value l) |})
          pop_filtered life_filtered in
  merge okey okey
        (fun m g => {| m_country := o_country m; m_year := o_year m;
                       population := fst (o_value m);
                       life_expectancy := snd (o_value m);
                       gni_per_capita := o_value g |})
        merged1 gni_filtered.

(** Lines 106 to 116: dropna, the positivity filter, the years as integers. *)
Definition validate (final_df : list (merged float)) : result (list (merged Z)) :=
  let final_df := filter not_missing final_df in
  let final_df := filter all_positive final_df in
  mapM year_to_int final_df.

Section Pipeline.

(** [pd.to_numeric(..., errors='coerce')] on one string that is not empty:
    its number, NaN when pandas does not read it as one. The conversion is
    pandas' own; the pipeline is stated for any such function. *)
Variable to_numeric_str : string -> float.

(** [pd.to_numeric(..., errors='coerce')] on one cell; the numbers of the
    tidy tables are kept as floats, an integer cell as the float nearest to
    it. *)
Definition to_numeric (v : value) : float :=
  match v with
  | VInt z => SF2Prim (binary_normalize prec emax z 0 false)
  | VFloat f => f
  | VStr s => if String.eqb s "" then nan else to_numeric_str s
  end.

(** Lines 59 to 72: forward fill, melt, years to numbers. *)
Definition reshape (df : frame) : list (obs float value) :=
  map_year to_numeric_str (melt (ffill df)).

(** Lines 45 to 52. *)
Definition read_inputs (fs : filesystem) : result (frame * frame * frame) :=
  let data_path :=
    if exists_path fs "data/pop.csv" then "data/"%string else "app/data/"%string in
  population_df <- read_csv fs (data_path ++ "pop.csv")%string ;;
  life_expectancy_df <- read_csv fs (data_path ++ "lex.csv")%string ;;
  gni_df <- read_csv fs (data_path ++ "ny_gnp.csv")%string ;;
  Ok (population_df, life_expectancy_df, gni_df).

(** Lines 59 to 120, on the three tables read. *)
Definition process (population_df life_expectancy_df gni_df : frame)
  : result (list (merged Z)) :=
  let pop_tidy := reshape population_df in
  let life_tidy := reshape life_expectancy_df in
  let gni_tidy := reshape gni_df in
  pop_tidy <- apply_value parse_number pop_tidy ;;
  let life_tidy := map_value to_numeric life_tidy in
  gni_tidy <- apply_value parse_number gni_tidy ;;
  let pop_filtered := restrict_years pop_tidy in
  let life_filtered := restrict_years life_tidy in
  let gni_filtered := restrict_years gni_tidy in
  validate (align pop_filtered life_filtered gni_filtered).

Definition load_and_process_data (fs : filesystem) : result (list (merged Z)) :=
  inputs <- read_inputs fs ;;
  let '(population_df, life_expectancy_df, gni_df) := inputs in
  process population_df life_expectancy_df gni_df.

(** The join keys of a table with the countries [cs] and the year columns
    [hs]: every column with every country, the columns in the outer loop. *)
Definition grid (cs : list (option string)) (hs : list string) : list key :=
  flat_map (fun h => map (fun c => (c, to_numeric_str h)) cs) hs.

(** ** The script after the pipeline (app.py, lines 122 to 131) *)

(** What lines 122 to 131 come to: an exception nobody catches, the stop
    after the error message, or the data and the two summaries with which
    the script goes on to the controls of the dashboard. *)
Inductive outcome : Type :=
| Crashed (e : exn)
| Stopped (error_message : string)
| Dashboard (data : list (merged Z)) (years : list Z)
    (countries : list (option string)).

Definition years (data : list (merged Z)) : list Z :=
  sorted_by Z.leb (unique Z.eqb (map m_year data)).

Definition countries (data : list (merged Z)) : result (list (option string)) :=
  sorted_countries (unique country_eqb (map m_country data)).

Definition script (fs : filesystem) : outcome :=
  match load_and_process_data fs with
  | Raise e => Crashed e
  | Ok data =>
      if (List.length data =? 0)%nat then Stopped "No data available after processing!"
      else
        match countries data with
        | Raise e => Crashed e
        | Ok cs => Dashboard data (years data) cs
        end
  end.

End Pipeline.

(** ** The controls and the views (app.py, lines 133 to 287) *)

(** [min(l)] and [max(l)] on a list of integers: [ValueError] on the empty
    list. *)
Definition py_min (l : list Z) : result Z :=
  match l with
  | [] => Raise ValueError
  | x :: l' => Ok (fold_left Z.min l' x)
  end.

Definition py_max (l : list Z) : result Z :=
  match l with
  | [] => Raise ValueError
  | x :: l' => Ok (fold_left Z.max l' x)
  end.

(** Lines 137 to 143: the bounds and the start value of the year slider. *)
Record slider : Type := { min_value : Z; max_value : Z; start_value : Z }.

(** What the call of [st.sidebar.slider] comes to: the slider is set; or
    Streamlit refuses the bounds, which it does unless [min_value] is below
    [max_value], with an exception that nobody catches; or an argument of
    the call has raised. *)
Inductive slider_call : Type :=
| SliderSet (s : slider)
| SliderRefused (min_value max_value : Z)
| SliderNoYears (e : exn).

Definition year_slider (years : list Z) : slider_call :=
  match (lo <- py_min years ;;
         hi <- py_max years ;;
         v <- py_max years ;;
         Ok (lo, hi, v)) with
  | Raise e => SliderNoYears e
  | Ok (lo, hi, v) =>
      if lo <? hi
      then SliderSet {| min_value := lo; max_value := hi; start_value := v |}
      else SliderRefused lo hi
  end.

(** Lines 122 to 143, the run up to the year slider: an exception of the
    pipeline or of the summaries, the stop on an empty dataset, the refusal
    of the slider, or the page with its slider set. *)
Inductive page : Type :=
| PageCrashed (e : exn)
| PageStopped (error_message : string)
| PageSliderRefused (min_value max_value : Z)
| PageControls (data : list (merged Z)) (years : list Z)
    (countries : list (option string)) (year : slider).

Definition open_page (to_numeric_str : string -> float) (fs : filesystem) : page :=
  match script to_numeric_str fs with
  | Crashed e => PageCrashed e
  | Stopped error_message => PageStopped error_message
  | Dashboard data years countries =>
      match year_slider years with
      | SliderSet s => PageControls data years countries s
      | SliderRefused lo hi => PageSliderRefused lo hi
      | SliderNoYears e => PageCrashed e
      end
  end.

(** Lines 146 to 151. *)
Definition major_countries : list string :=
  [ "China"; "India"; "United States"; "Indonesia"; "Pakistan";
    "Brazil"; "Nigeria"; "Bangladesh"; "Russia"; "Mexico";
    "Japan"; "Philippines"; "Ethiopia"; "Vietnam"; "Egypt";
    "Germany"; "Iran"; "Turkey"; "Thailand"; "United Kingdom" ]%string.

(** [c in countries] *)
Definition contains (countries : list (option string)) (c : string) : bool :=
  existsb (country_eqb (Some c)) countries.

(** Lines 153 to 155: the major countries the data has, or else the first
    ten countries. *)
Definition available_major_countries (countries : list (option string))
  : list (option string) :=
  match map Some (filter (contains countries) major_countries) with
  | [] => firstn 10 countries
  | available => available
  end.

(** Line 160: the countries selected when the page opens. *)
Definition default_countries (countries : list (option string))
  : list (option string) :=
  firstn 8 (available_major_countries countries).

(** [series.max()] on floats: the largest value that is not NaN, NaN when
    there is none. *)
Definition float_max (x y : float) : float := if (x <? y)%float then y else x.

Definition series_max (l : list float) : float :=
  match filter (fun x => negb (PrimFloat.is_nan x)) l with
  | [] => nan
  | x :: l' => fold_left float_max l' x
  end.

(** Lines 172 to 175 and 260 to 263: the records of one year for the selected
    countries. *)
Definition select (data : list (merged Z)) (year : Z)
  (selected_countries : list (option string)) : list (merged Z) :=
  filter (fun r => (m_year r =? year)
                   && existsb (country_eqb (m_country r)) selected_countries)
         data.

(** Lines 171 to 242: what the main area shows: the prompt to select
    countries ([st.info]), the warning that nothing matches ([st.warning]),
    or the bubble chart of the selected records, whose horizontal axis is
    scaled with the largest GNI of the whole dataset. *)
Inductive view : Type :=
| Prompt
| NoMatch
| Chart (filtered_data : list (merged Z)) (max_gni : float).

Definition main_view (data : list (merged Z)) (selected_year : Z)
  (selected_countries : list (option string)) : view :=
  match selected_countries with
  | [] => Prompt
  | _ :: _ =>
      match select data selected_year selected_countries with
      | [] => NoMatch
      | filtered_data =>
          Chart filtered_data (series_max (map gni_per_capita data))
      end
  end.

(** [a / b] on two positive integers: the nearest float to the quotient. *)
Definition true_div (a b : positive) : float := SF2Prim (div_round false a b).

(** Lines 257 to 284: one step of the animation for every year, in the order
    of [years]: the value given to the progress bar and the records drawn
    (the chart is left as it is when there are none). *)
Record step : Type :=
  { progress : float; step_year : Z; year_data : list (merged Z) }.

Fixpoint steps_from (i : nat) (n : positive) (data : list (merged Z))
  (selected_countries : list (option string)) (years : list Z) : list step :=
  match years with
  | [] => []
  | year :: years' =>
      {| progress := true_div (Pos.of_succ_nat i) n;
         step_year := year;
         year_data := select data year selected_countries |}
      :: steps_from (S i) n data selected_countries years'
  end.

Definition animation (data : list (merged Z)) (years : list Z)
  (selected_countries : list (option string)) : list step :=
  steps_from 0 (Pos.of_nat (List.length years)) data selected_countries years.

(** The characters a text that [float] accepts can end with: a digit, the
    point, or the last letter of inf, nan or infinity in either case. *)
Definition literal_end (c : ascii) : bool :=
  isdigit c || Ascii.eqb c "." || Ascii.eqb (lower c) "f"
  || Ascii.eqb (lower c) "n" || Ascii.eqb (lower c) "y".

(** A cell that is present and that [parse] turns into a number above zero. *)
Definition valid_positive (parse : value -> result float) (c : value) : Prop :=
  isna c = false /\ exists x, parse c = Ok x /\ (0 <? x)%float = true.

(** A wide table with the year columns [hs], one row for each of the
    countries [names], in any order, and a valid positive value in every
    cell. *)
Definition complete_table (parse : value -> result float) (names hs : list string)
  (df : frame) : Prop :=
  columns df = hs
  /\ Permutation (map country (rows df)) (map Some names)
  /\ Forall (fun r => List.length (cells r) = List.length hs
                      /\ Forall (valid_positive parse) (cells r)) (rows df).

Definition three_countries : list string :=
  ["Afghanistan"; "Albania"; "Algeria"]%string.

(** A cell that holds a number which is not above zero. *)
Definition not_positive (to_numeric_str : string -> float) (c : value) : Prop :=
  isna c = false /\ (0 <? to_numeric to_numeric_str c)%float = false.

(** ** Sample inputs *)

Definition mkrow (c : string) (l : list value) : row :=
  {| country := Some c; cells := l |}.

Definition years_90_92 : list string := ["1990"; "1991"; "1992"]%string.

(** The wide row of the reshaping example: 10, a blank, 30. *)
Definition gap_frame : frame :=
  {| columns := years_90_92;
     rows := [mkrow "A" [VInt 10; VFloat nan; VInt 30]] |}.

(** Three complete tables for 1990 to 1992; the rows of the life-expectancy
    table come in another order. *)
Definition pop_frame : frame :=
  {| columns := years_90_92;
     rows := [ mkrow "Afghanistan" [VStr "12.1M"; VStr "12.4M"; VStr "13.3M"];
               mkrow "Albania" [VStr "3.29M"; VStr "3.28M"; VStr "3.25M"];
               mkrow "Algeria" [VStr "25.5M"; VStr "26.1M"; VStr "26.7M"] ] |}.

Definition lex_frame : frame :=
  {| columns := years_90_92;
     rows := [ mkrow "Albania" [VFloat 73.25; VFloat 73.5; VFloat 73.75];
               mkrow "Algeria" [VFloat 70.25; VFloat 70.75; VInt 71];
               mkrow "Afghanistan" [VFloat 53.75; VFloat 53.75; VFloat 54.25] ] |}.

Definition gni_frame : frame :=
  {| columns := years_90_92;
     rows := [ mkrow "Afghanistan" [VInt 1010; VInt 920; VInt 880];
               mkrow "Albania" [VStr "4.52k"; VStr "3.3k"; VStr "3.12k"];
               mkrow "Algeria" [VStr "8.78k"; VStr "8.6k"; VStr "8540"] ] |}.

Definition files (pop lex gni : frame) : filesystem :=
  fun p =>
    if String.eqb p "data/pop.csv" then Some pop
    else if String.eqb p "data/lex.csv" then Some lex
    else if String.eqb p "data/ny_gnp.csv" then Some gni
    else None.

Definition sample_fs : filesystem := files pop_frame lex_frame gni_frame.

(** A life-expectancy table that holds only zeros. *)
Definition zero_lex_frame : frame :=
  {| columns := years_90_92;
     rows := [ mkrow "Afghanistan" [VInt 0; VInt 0; VInt 0];
               mkrow "Albania" [VFloat 0; VFloat 0; VFloat 0];
               mkrow "Algeria" [VInt 0; VFloat 0; VInt 0] ] |}.

Definition zero_fs : filesystem := files pop_frame zero_lex_frame gni_frame.

(** Population and GNI know Albania in 1989 to 1991, life expectancy knows
    it in 1990 only. *)
Definition short_lex_fs : filesystem :=
  files {| columns := ["1989"; "1990"; "1991"]%string;
           rows := [mkrow "Albania" [VStr "3.2M"; VStr "3.29M"; VStr "3.28M"]] |}
        {| columns := ["1990"]%string;
           rows := [mkrow "Albania" [VFloat 73.25]; mkrow "albania" [VFloat 70]] |}
        {| columns := ["1989"; "1990"; "1991"]%string;
           rows := [mkrow "Albania" [VStr "4.6k"; VStr "4.52k"; VStr "3.3k"]] |}.

(** A population table whose first year cell is blank in both rows; the
    name of the second row reads as a number. *)
Definition blank_first_frame : frame :=
  {| columns := ["1990"; "1991"]%string;
     rows := [ mkrow "Albania" [VFloat nan; VStr "3.28M"];
               mkrow "12" [VFloat nan; VStr "5M"] ] |}.

(** A population table in which the first year cell of Denmark is blank. *)
Definition denmark_fs : filesystem :=
  files {| columns := ["1990"; "1991"]%string;
           rows := [mkrow "Denmark" [VFloat nan; VStr "5.15M"]] |}
        {| columns := ["1990"; "1991"]%string;
           rows := [mkrow "Denmark" [VFloat 74.75; VFloat 75.25]] |}
        {| columns := ["1990"; "1991"]%string;
           rows := [mkrow "Denmark" [VStr "31.4k"; VStr "31.8k"]] |}.

(** The three tables are in app/data, and data holds a population table
    only. *)
Definition split_fs : filesystem :=
  fun p =>
    if String.eqb p "data/pop.csv" then Some pop_frame
    else if String.eqb p "app/data/pop.csv" then Some pop_frame
    else if String.eqb p "app/data/lex.csv" then Some lex_frame
    else if String.eqb p "app/data/ny_gnp.csv" then Some gni_frame
    else None.

(** Tables with two of the major countries, for 1990, 2005 and 2023. *)
Definition world_fs : filesystem :=
  files {| columns := ["1990"; "2005"; "2023"]%string;
           rows := [ mkrow "India" [VStr "870M"; VStr "1.15B"; VStr "1.43B"];
                     mkrow "Albania" [VStr "3.29M"; VStr "3.01M"; VStr "2.83M"];
                     mkrow "China" [VStr "1.15B"; VStr "1.3B"; VStr "1.42B"] ] |}
        {| columns := ["1990"; "2005"; "2023"]%string;
           rows := [ mkrow "India" [VFloat 58.5; VFloat 65.25; VFloat 72];
                     mkrow "Albania" [VFloat 73.25; VFloat 76.5; VFloat 79.5];
                     mkrow "China" [VFloat 68; VFloat 73.75; VFloat 78] ] |}
        {| columns := ["1990"; "2005"; "2023"]%string;
           rows := [ mkrow "India" [VInt 1200; VStr "3k"; VStr "9.2k"];
                     mkrow "Albania" [VStr "4.52k"; VStr "8.3k"; VStr "18.5k"];
                     mkrow "China" [VInt 980; VStr "5.1k"; VStr "22.1k"] ] |}.

(** ** Facts on the Python builtins *)

Lemma bind_ok {A B : Type} (r : result A) (k : A -> result B) (b : B) :
  bind r k = Ok b -> exists a, r = Ok a /\ k a = Ok b.
Proof.
  destruct r as [a|e]; simpl; intros H; [exists a; auto | discriminate].
Qed.

Lemma mapM_Forall2 {A B : Type} (f : A -> result B) (l : list A) (bs : list B) :
  mapM f l = Ok bs -> Forall2 (fun a b => f a = Ok b) l bs.
Proof.
  revert bs; induction l as [|a l IH]; simpl; intros bs H.
  - injection H as <-. constructor.
  - apply bind_ok in H. destruct H as [b [Hb H]].
    apply bind_ok in H. destruct H as [bs' [Hbs H]].
    injection H as <-. constructor; auto.
Qed.

Lemma mapM_total {A B : Type} (f : A -> result B) (l : list A) :
  Forall (fun a => exists b, f a = Ok b) l -> exists bs, mapM f l = Ok bs.
Proof.
  induction 1 as [|a l [b Hb] _ [bs Hbs]]; simpl.
  - eexists; reflexivity.
  - rewrite Hb, Hbs. simpl. eexists; reflexivity.
Qed.

(** ** Facts on lists *)

Lemma map_flat_map {A B C : Type} (f : B -> C) (g : A -> list B) (l : list A) :
  map f (flat_map g l) = flat_map (fun a => map f (g a)) l.
Proof.
  induction l as [|a l IH]; simpl; [reflexivity|].
  rewrite map_app, IH. reflexivity.
Qed.

Lemma NoDup_flat_map {A B : Type} (f : A -> list B) (l : list A) :
  NoDup l ->
  (forall a, In a l -> NoDup (f a)) ->
  (forall a b x, In a l -> In b l -> In x (f a) -> In x (f b) -> a = b) ->
  NoDup (flat_map f l).
Proof.
  induction 1 as [|a l Ha Hl IH]; intros Hin Hdis; simpl; [constructor|].
  apply NoDup_app.
  - apply Hin. left. reflexivity.
  - apply IH.
    + intros b Hb. apply Hin. right. assumption.
    + intros b c x Hb Hc. apply Hdis; right; assumption.
  - intros x Hx Hx'. apply in_flat_map in Hx'. destruct Hx' as [b [Hb Hxb]].
    assert (a = b) by (apply (Hdis a b x); simpl; auto).
    subst b. contradiction.
Qed.

Lemma length_flat_map_const {A B : Type} (f : A -> list B) (l : list A) (n : nat) :
  (forall a, In a l -> List.length (f a) = n) ->
  List.length (flat_map f l) = (List.length l * n)%nat.
Proof.
  induction l as [|a l IH]; simpl; intros H; [reflexivity|].
  rewrite length_app, IH, H; auto.
Qed.

Lemma NoDup_map_injective {A B : Type} (f : A -> B) (l : list A) :
  (forall a b, f a = f b -> a = b) -> NoDup l -> NoDup (map f l).
Proof.
  intros Hf. induction 1 as [|a l Ha _ IH]; simpl; constructor; [|assumption].
  intros H. apply in_map_iff in H. destruct H as [b [E Hb]].
  apply Hf in E. subst b. contradiction.
Qed.

(** ** The number parser *)

(** A string goes through the suffix tests after [strip]; when none of the
    three suffixes ends it, the conversion error is caught. *)
Lemma parse_number_plain (s : string) :
  endswith (strip s) "k" = false ->
  endswith (strip s) "M" = false ->
  endswith (strip s) "B" = false ->
  parse_number (VStr s)
  = match float_of_str (strip s) with Ok x => Ok x | Raise _ => Ok nan end.
Proof.
  intros Hk HM HB. unfold parse_number. simpl isna. simpl orb.
  destruct (String.eqb s "") eqn:E.
  - apply String.eqb_eq in E. subst s. reflexivity.
  - rewrite Hk, HM, HB. reflexivity.
Qed.

(** On a string [parse_number] either returns, or raises [ValueError] from
    one of the three suffix branches. *)
Lemma parse_number_str_cases (s : string) :
  (exists x, parse_number (VStr s) = Ok x)
  \/ (parse_number (VStr s) = Raise ValueError
      /\ (endswith (strip s) "k" = true \/ endswith (strip s) "M" = true
          \/ endswith (strip s) "B" = true)
      /\ float_of_str (but_last (strip s)) = Raise ValueError).
Proof.
  unfold parse_number. simpl isna. simpl orb.
  destruct (String.eqb s ""); [left; eexists; reflexivity|].
  assert (Hf : forall t, (exists x, float_of_str t = Ok x)
                         \/ float_of_str t = Raise ValueError).
  { intros t. unfold float_of_str. destruct (float_of_chars (chars t));
      [left; eexists; reflexivity | right; reflexivity]. }
  destruct (endswith (strip s) "k") eqn:Ek;
    [|destruct (endswith (strip s) "M") eqn:EM;
      [|destruct (endswith (strip s) "B") eqn:EB]].
  1-3: destruct (Hf (but_last (strip s))) as [[x Hx]|Hx]; rewrite Hx; simpl;
    [left; eexists; reflexivity | right; auto].
  left. destruct (float_of_str (strip s)); eexists; reflexivity.
Qed.

(** C1: the suffix branches convert the prefix outside the [try]: a string
    that ends in k, M or B and whose prefix is not a number makes
    [parse_number] raise [ValueError] instead of returning the missing value. *)
Theorem parse_number_suffix_raises :
  parse_number (VStr "Denmark") = Raise ValueError
  /\ parse_number (VStr "abck") = Raise ValueError
  /\ parse_number (VStr "xM") = Raise ValueError
  /\ parse_number (VStr "B") = Raise ValueError
  /\ parse_number (VStr "abc") = Ok nan.
Proof. repeat split; vm_compute; reflexivity. Qed.

(** C2: the documented input and output pairs of [parse_number]; the
    upper-case suffix of 407K is not a multiplier, the whole string goes to
    the direct conversion, which fails, and the result is missing. *)
Theorem parse_number_examples :
  parse_number (VStr "3.28M") = Ok 3280000%float
  /\ parse_number (VStr "407k") = Ok 407000%float
  /\ parse_number (VStr "2650") = Ok 2650%float
  /\ parse_number (VStr "") = Ok nan
  /\ parse_number (VStr "abc") = Ok nan
  /\ parse_number (VInt 12345) = Ok 12345%float
  /\ endswith (strip "407K") "k" = false
  /\ float_of_str (strip "407K") = Raise ValueError
  /\ parse_number (VStr "407K") = Ok nan.
Proof. repeat split; vm_compute; reflexivity. Qed.

(** ** Headers of decimal digits *)

Lemma digits_nonneg (l : list ascii) (acc k : Z) :
  0 <= acc -> 0 <= fst (fst (digits acc k l)).
Proof.
  revert acc k. induction l as [|c l IH]; intros acc k H; [simpl; assumption|].
  cbn [digits]. destruct (isdigit c) eqn:D; [|simpl; assumption].
  apply IH. unfold isdigit in D. apply andb_prop in D. destruct D as [D _].
  apply Z.leb_le in D. lia.
Qed.

Lemma digits_all (l : list ascii) (acc k m k' : Z) :
  digits acc k l = (m, k', []) -> Forall (fun c => isdigit c = true) l.
Proof.
  revert acc k. induction l as [|c l IH]; intros acc k H; [constructor|].
  simpl in H. destruct (isdigit c) eqn:D; [|discriminate].
  constructor; [assumption|]. exact (IH _ _ H).
Qed.

Lemma header_int_nonneg (h : string) (n : Z) : header_int h = Some n -> 0 <= n.
Proof.
  unfold header_int.
  pose proof (digits_nonneg (chars h) 0 0 (Z.le_refl 0)) as H.
  destruct (digits 0 0 (chars h)) as [[m k] r]. simpl in H.
  destruct r; [|discriminate]. destruct (0 <? k); [|discriminate].
  intros E. injection E as <-. assumption.
Qed.

Lemma isdigit_plain (c : ascii) :
  isdigit c = true ->
  ascii_isspace c = false /\ Ascii.eqb c "-" = false /\ Ascii.eqb c "+" = false.
Proof.
  destruct c as [[] [] [] [] [] [] [] []]; vm_compute; intros H;
    try discriminate H; repeat split.
Qed.

Lemma dropwhile_none (p : ascii -> bool) (l : list ascii) :
  Forall (fun c => p c = false) l -> dropwhile p l = l.
Proof.
  intros H. destruct H as [|c l Hc _]; simpl; [reflexivity|].
  rewrite Hc. reflexivity.
Qed.

Lemma strip_with_none (p : ascii -> bool) (l : list ascii) :
  Forall (fun c => p c = false) l -> strip_with p l = l.
Proof.
  intros H. unfold strip_with. rewrite (dropwhile_none p l H).
  rewrite dropwhile_none by (apply Forall_rev; assumption).
  apply rev_involutive.
Qed.

(** The reference conversion reads a header of digits as its integer. *)
Lemma to_numeric_dec_digits (h : string) (n : Z) :
  header_int h = Some n -> to_numeric_dec h = Z_to_float n.
Proof.
  intros H. pose proof (header_int_nonneg _ _ H) as Hn.
  unfold header_int in H. unfold to_numeric_dec.
  remember (chars h) as l eqn:El. clear El.
  destruct (digits 0 0 l) as [[m k] r] eqn:E.
  destruct r; [|discriminate]. destruct (0 <? k) eqn:K; [|discriminate].
  injection H as ->.
  pose proof (digits_all _ _ _ _ _ E) as Hd.
  rewrite strip_with_none
    by (eapply Forall_impl; [|exact Hd]; intros c Hc; apply (isdigit_plain c Hc)).
  assert (Hs : sign l = (false, l)).
  { destruct Hd as [|c l Hc _]; [reflexivity|]. simpl.
    destruct (isdigit_plain c Hc) as [_ [E1 E2]]. rewrite E1, E2. reflexivity. }
  rewrite Hs. unfold decimal. rewrite E.
  apply Z.ltb_lt in K.
  replace (k + 0 =? 0) with false by (symmetry; apply Z.eqb_neq; lia).
  unfold decimal_to_float, Z_to_float.
  destruct n as [|p|p]; [reflexivity| |lia].
  change (- 0) with 0. change (0 <=? 0) with true. cbv iota.
  change (10 ^ 0) with 1. rewrite Z.mul_1_r. reflexivity.
Qed.

Lemma to_numeric_dec_reads_integers : reads_integers to_numeric_dec.
Proof. intros h n H _. apply to_numeric_dec_digits. exact H. Qed.

(** ** Facts on floats: comparisons through their specification *)

Lemma SFleb_finite_pos (m1 m2 : positive) (e1 e2 : Z) :
  SFleb (S754_finite false m1 e1) (S754_finite false m2 e2) = true ->
  e1 < e2 \/ (e1 = e2 /\ (m1 <= m2)%positive).
Proof.
  unfold SFleb, SFcompare. change (Pos.compare_cont Eq) with Pos.compare.
  destruct (Z.compare_spec e1 e2) as [He|He|He]; try discriminate.
  - destruct (Pos.compare_spec m1 m2) as [Hm|Hm|Hm]; try discriminate; intros _;
      right; split; auto; lia.
  - intros _. left. exact He.
Qed.

Lemma year_range_finite (y : float) :
  (min_year <=? y)%float = true -> (y <=? max_year)%float = true ->
  exists m, Prim2SF y = S754_finite false m (-42)
            /\ 1990 * 2 ^ 42 <= Z.pos m <= 2023 * 2 ^ 42.
Proof.
  rewrite !FloatAxioms.leb_spec.
  replace (Prim2SF min_year)
    with (S754_finite false (Z.to_pos (1990 * 2 ^ 42)) (-42)) by (vm_compute; reflexivity).
  replace (Prim2SF max_year)
    with (S754_finite false (Z.to_pos (2023 * 2 ^ 42)) (-42)) by (vm_compute; reflexivity).
  assert (P : 0 < 2 ^ 42) by (apply Z.pow_pos_nonneg; lia).
  generalize dependent (2 ^ 42). intros K HK.
  destruct (Prim2SF y) as [s|s| |s m e];
    try (destruct s; discriminate); try discriminate.
  destruct s; [discriminate|].
  intros H1 H2. apply SFleb_finite_pos in H1, H2.
  exists m. assert (e = -42) by lia. subst e. split; [reflexivity|].
  destruct H1 as [H1|[_ H1]]; [lia|]. destruct H2 as [H2|[_ H2]]; [lia|].
  lia.
Qed.

Lemma astype_int_year (y : float) :
  (min_year <=? y)%float = true -> (y <=? max_year)%float = true ->
  exists n, astype_int y = Ok n /\ 1990 <= n <= 2023.
Proof.
  intros H1 H2. destruct (year_range_finite y H1 H2) as [m [Hm Hb]].
  unfold astype_int. rewrite Hm. simpl Z.leb. cbv iota.
  eexists; split; [reflexivity|].
  change (- -42) with 42.
  assert (P : 0 < 2 ^ 42) by (apply Z.pow_pos_nonneg; lia).
  generalize dependent (2 ^ 42). intros K HK P.
  split.
  - apply Z.div_le_lower_bound; lia.
  - apply Z.div_le_upper_bound; lia.
Qed.

(** The float of a small integer is exact: the conversion to int gives the
    integer back. *)
Lemma astype_int_small (n : Z) :
  0 <= n <= 9999 -> astype_int (Z_to_float n) = Ok n.
Proof.
  intros H.
  assert (T : forallb (fun k => match astype_int (Z_to_float (Z.of_nat k)) with
                                | Ok m => m =? Z.of_nat k
                                | Raise _ => false
                                end) (seq 0 (Z.to_nat 10000)) = true)
    by (vm_compute; reflexivity).
  rewrite forallb_forall in T. specialize (T (Z.to_nat n)).
  rewrite Z2Nat.id in T by lia.
  destruct (astype_int (Z_to_float n)) as [m|e].
  - f_equal. apply Z.eqb_eq. apply T. apply in_seq. lia.
  - assert (F : false = true) by (apply T; apply in_seq; lia). discriminate.
Qed.

Lemma Z_to_float_small_NoDup (ns : list Z) :
  Forall (fun n => 0 <= n <= 9999) ns -> NoDup ns -> NoDup (map Z_to_float ns).
Proof.
  intros Hr Hnd. apply (NoDup_map_inv astype_int).
  rewrite map_map.
  rewrite (map_ext_in _ (fun n => Ok n)).
  - apply NoDup_map_injective; [|assumption]. intros a b E. congruence.
  - intros n Hn. rewrite Forall_forall in Hr. apply astype_int_small. auto.
Qed.

Lemma SFeqb_finite_eq (s : bool) (m : positive) (e : Z) (x : spec_float) :
  SFeqb (S754_finite s m e) x = true -> x = S754_finite s m e.
Proof.
  unfold SFeqb, SFcompare.
  destruct x as [s'|s'| |s' m' e']; try (destruct s; discriminate);
    try (destruct s, s'; discriminate).
  change (Pos.compare_cont Eq) with Pos.compare.
  destruct s, s'; try discriminate;
    destruct (Z.compare_spec e e'); try discriminate;
    destruct (Pos.compare_spec m m'); try discriminate;
    intros _; subst; reflexivity.
Qed.

Lemma SFeqb_finite_refl (s : bool) (m : positive) (e : Z) :
  SFeqb (S754_finite s m e) (S754_finite s m e) = true.
Proof.
  unfold SFeqb, SFcompare. change (Pos.compare_cont Eq) with Pos.compare.
  rewrite Z.compare_refl, Pos.compare_refl. destruct s; reflexivity.
Qed.

(** Two keys of the join that agree on an in-range year carry the same year. *)
Lemma year_eqb_eq (x y : float) :
  (min_year <=? x)%float = true -> (x <=? max_year)%float = true ->
  year_eqb x y = true -> x = y.
Proof.
  intros H1 H2 H. destruct (year_range_finite x H1 H2) as [m [Hm _]].
  unfold year_eqb, PrimFloat.is_nan in H. rewrite !FloatAxioms.eqb_spec, Hm in H.
  rewrite SFeqb_finite_refl in H. simpl in H. rewrite orb_false_r in H.
  apply SFeqb_finite_eq in H. apply Prim2SF_inj. congruence.
Qed.

Lemma year_eqb_refl (x : float) :
  (min_year <=? x)%float = true -> (x <=? max_year)%float = true ->
  year_eqb x x = true.
Proof.
  intros H1 H2. destruct (year_range_finite x H1 H2) as [m [Hm _]].
  unfold year_eqb. rewrite FloatAxioms.eqb_spec, Hm, SFeqb_finite_refl. reflexivity.
Qed.

(** A positive float is a number. *)
Lemma positive_not_nan (x : float) :
  (0 <? x)%float = true -> PrimFloat.is_nan x = false.
Proof.
  unfold PrimFloat.is_nan. rewrite FloatAxioms.ltb_spec, FloatAxioms.eqb_spec.
  replace (Prim2SF 0%float) with (S754_zero false) by (vm_compute; reflexivity).
  destruct (Prim2SF x) as [s|s| |s m e]; try discriminate.
  - destruct s; intros H; [discriminate | reflexivity].
  - intros _. rewrite SFeqb_finite_refl. reflexivity.
Qed.

(** Two float literals are told apart by comparing them. *)
Ltac float_neq :=
  match goal with
  | E : ?x = ?y :> float |- _ =>
      apply (f_equal (fun z => PrimFloat.eqb z x)) in E;
      vm_compute in E; discriminate E
  end.

Lemma country_eqb_eq (a b : option string) : country_eqb a b = true -> a = b.
Proof.
  destruct a as [s|], b as [t|]; simpl; try discriminate; auto.
  intros H. apply String.eqb_eq in H. congruence.
Qed.

Lemma country_eqb_refl (a : option string) : country_eqb a a = true.
Proof. destruct a; simpl; auto using String.eqb_refl. Qed.

(** ** Facts on the frame operations *)

Lemma merge_In {L R O : Type} (lkey : L -> key) (rkey : R -> key)
  (mk : L -> R -> O) (left : list L) (right : list R) (o : O) :
  In o (merge lkey rkey mk left right) <->
  exists l r, In l left /\ In r right
              /\ key_eqb (lkey l) (rkey r) = true /\ o = mk l r.
Proof.
  unfold merge. rewrite in_flat_map. split.
  - intros [l [Hl Ho]]. apply in_map_iff in Ho. destruct Ho as [r [Hr Hf]].
    apply filter_In in Hf. destruct Hf as [Hin Hk]. exists l, r. auto.
  - intros [l [r [Hl [Hr [Hk Ho]]]]]. exists l. split; [assumption|].
    apply in_map_iff. exists r. split; [auto|]. apply filter_In. auto.
Qed.

Lemma Forall2_In_r {A B : Type} (P : A -> B -> Prop) (l : list A) (l' : list B) (b : B) :
  Forall2 P l l' -> In b l' -> exists a, In a l /\ P a b.
Proof.
  induction 1 as [|a b' l l' Hab _ IH]; simpl; [tauto|].
  intros [<-|Hb].
  - exists a; auto.
  - destruct (IH Hb) as [a' [Ha' Hp]]. exists a'; auto.
Qed.

(** Where a row of the aligned table comes from: one observation of each
    source, with the same country and the same year. *)
Lemma apply_value_In {Y V V' : Type} (f : V -> result V') (l : list (obs Y V))
  (P : list (obs Y V')) (o : obs Y V) :
  apply_value f l = Ok P -> In o l ->
  exists x, f (o_value o) = Ok x
            /\ In {| o_country := o_country o; o_year := o_year o; o_value := x |} P.
Proof.
  unfold apply_value. revert P.
  induction l as [|a l IH]; intros P H Hin; [contradiction|].
  simpl in H. apply bind_ok in H. destruct H as [b [Hb H]].
  apply bind_ok in H. destruct H as [bs [Hbs H]]. injection H as <-.
  apply bind_ok in Hb. destruct Hb as [x [Hx Hb]]. injection Hb as <-.
  destruct Hin as [->|Hin].
  - exists x. split; [assumption|left; reflexivity].
  - destruct (IH bs Hbs Hin) as [x' [Hx' Hin']].
    exists x'. split; [assumption|right; assumption].
Qed.

Lemma align_In (P L G : list (obs float float)) (m : merged float) :
  In m (align (restrict_years P) (restrict_years L) (restrict_years G)) ->
  exists p l g,
    In p P /\ In l L /\ In g G
    /\ year_in_range p = true
    /\ o_country l = o_country p /\ o_country g = o_country p
    /\ o_year l = o_year p /\ o_year g = o_year p
    /\ m = {| m_country := o_country p; m_year := o_year p;
              population := o_value p; life_expectancy := o_value l;
              gni_per_capita := o_value g |}.
Proof.
  unfold align, restrict_years. intros H.
  apply merge_In in H. destruct H as [m1 [g [Hm1 [Hg [Hk2 ->]]]]].
  apply merge_In in Hm1. destruct Hm1 as [p [l [Hp [Hl [Hk1 ->]]]]].
  apply filter_In in Hp, Hl, Hg.
  destruct Hp as [Hp Yp], Hl as [Hl Yl], Hg as [Hg Yg].
  unfold key_eqb, okey in Hk1, Hk2. simpl in Hk1, Hk2.
  apply andb_prop in Hk1, Hk2. destruct Hk1 as [C1 Y1], Hk2 as [C2 Y2].
  apply country_eqb_eq in C1, C2.
  pose proof Yp as Yp'. unfold year_in_range, in_years in Yp'. apply andb_prop in Yp'.
  destruct Yp' as [Ya Yb].
  apply (year_eqb_eq _ _ Ya Yb) in Y1, Y2.
  exists p, l, g. simpl. repeat split; auto.
Qed.

Lemma validate_In (F : list (merged float)) (d : list (merged Z)) (r : merged Z) :
  validate F = Ok d -> In r d ->
  exists m, In m F /\ not_missing m = true /\ all_positive m = true
            /\ year_to_int m = Ok r.
Proof.
  unfold validate. intros H Hr. apply mapM_Forall2 in H.
  destruct (Forall2_In_r _ _ _ _ H Hr) as [m [Hm Hy]].
  apply filter_In in Hm. destruct Hm as [Hm Hpos].
  apply filter_In in Hm. destruct Hm as [Hm Hna].
  exists m. auto.
Qed.

Lemma year_to_int_fields (m : merged float) (r : merged Z) :
  year_to_int m = Ok r ->
  astype_int (m_year m) = Ok (m_year r)
  /\ m_country r = m_country m /\ population r = population m
  /\ life_expectancy r = life_expectancy m
  /\ gni_per_capita r = gni_per_capita m.
Proof.
  unfold year_to_int. intros H. apply bind_ok in H. destruct H as [y [Hy H]].
  injection H as <-. simpl. auto.
Qed.

(** ** Joins on keys that occur once *)

Lemma in_years_bounds (y : float) :
  in_years y = true ->
  (min_year <=? y)%float = true /\ (y <=? max_year)%float = true.
Proof. unfold in_years. intros H. apply andb_prop in H. exact H. Qed.

Lemma in_years_not_nan (y : float) : in_years y = true -> PrimFloat.is_nan y = false.
Proof.
  intros H. apply in_years_bounds in H. destruct H as [H1 H2].
  destruct (year_range_finite y H1 H2) as [m [Hm _]].
  unfold PrimFloat.is_nan. rewrite FloatAxioms.eqb_spec, Hm, SFeqb_finite_refl.
  reflexivity.
Qed.

Lemma key_eqb_eq (k1 k2 : key) :
  in_years (snd k1) = true -> key_eqb k1 k2 = true -> k1 = k2.
Proof.
  intros Hy H. apply in_years_bounds in Hy. destruct Hy as [H1 H2].
  unfold key_eqb in H. apply andb_prop in H. destruct H as [Hc Hy].
  apply country_eqb_eq in Hc. apply (year_eqb_eq _ _ H1 H2) in Hy.
  destruct k1, k2; simpl in *; congruence.
Qed.

Lemma key_eqb_refl (k : key) : in_years (snd k) = true -> key_eqb k k = true.
Proof.
  intros Hy. apply in_years_bounds in Hy. destruct Hy as [H1 H2].
  unfold key_eqb. rewrite country_eqb_refl, (year_eqb_refl _ H1 H2). reflexivity.
Qed.

Lemma filter_no_key {R : Type} (rkey : R -> key) (right : list R) (k : key) :
  in_years (snd k) = true -> ~ In k (map rkey right) ->
  filter (fun r => key_eqb k (rkey r)) right = [].
Proof.
  intros Hy. induction right as [|r right IH]; simpl; intros Hn; [reflexivity|].
  destruct (key_eqb k (rkey r)) eqn:E.
  - apply (key_eqb_eq _ _ Hy) in E. exfalso. apply Hn. left. congruence.
  - apply IH. intros H. apply Hn. right. assumption.
Qed.

(** A key that the right table holds once has exactly one match. *)
Lemma filter_unique_key {R : Type} (rkey : R -> key) (right : list R) (k : key) :
  in_years (snd k) = true -> NoDup (map rkey right) -> In k (map rkey right) ->
  exists r0, filter (fun r => key_eqb k (rkey r)) right = [r0].
Proof.
  intros Hy. induction right as [|r right IH]; simpl; intros Hn Hin; [tauto|].
  inversion Hn as [|? ? Hnotin Hn']; subst.
  destruct (key_eqb k (rkey r)) eqn:E.
  - apply (key_eqb_eq _ _ Hy) in E. subst k.
    rewrite (filter_no_key rkey right _ Hy Hnotin). exists r. reflexivity.
  - destruct Hin as [Hin|Hin].
    + subst k. rewrite (key_eqb_refl _ Hy) in E. discriminate.
    + apply IH; assumption.
Qed.

(** When every left row has exactly one match, the join has the rows of the
    left table, each with its match. *)
Lemma merge_one_match {L R O : Type} (lkey : L -> key) (rkey : R -> key)
  (mk : L -> R -> O) (left : list L) (right : list R) :
  (forall l, In l left ->
             exists r0, filter (fun r => key_eqb (lkey l) (rkey r)) right = [r0]) ->
  Forall2 (fun l o => exists r0, In r0 right /\ o = mk l r0)
          left (merge lkey rkey mk left right).
Proof.
  induction left as [|l left IH]; intros H; simpl; [constructor|].
  destruct (H l (or_introl eq_refl)) as [r0 Hr0]. rewrite Hr0. simpl.
  constructor.
  - exists r0. split; [|reflexivity].
    assert (Hin : In r0 (filter (fun r => key_eqb (lkey l) (rkey r)) right))
      by (rewrite Hr0; left; reflexivity).
    apply filter_In in Hin. tauto.
  - apply IH. intros l' Hl'. apply H. right. assumption.
Qed.

Lemma Forall2_map_eq {A B C : Type} (f : A -> C) (g : B -> C) (l : list A) (l' : list B) :
  Forall2 (fun a b => f a = g b) l l' -> map f l = map g l'.
Proof. induction 1; simpl; congruence. Qed.

Lemma filter_all {A : Type} (f : A -> bool) (l : list A) :
  Forall (fun a => f a = true) l -> filter f l = l.
Proof.
  induction 1 as [|a l Ha _ IH]; simpl; [reflexivity|]. rewrite Ha, IH. reflexivity.
Qed.

Lemma map_nth_seq {A : Type} (l : list A) (d : A) :
  map (fun j => nth j l d) (seq 0 (List.length l)) = l.
Proof.
  induction l as [|a l IH]; simpl; [reflexivity|].
  f_equal. rewrite <- seq_shift, map_map. exact IH.
Qed.

Lemma apply_value_total {Y : Type} (parse : value -> result float)
  (Q : float -> Prop) (l : list (obs Y value)) :
  Forall (fun o => exists x, parse (o_value o) = Ok x /\ Q x) l ->
  exists T, apply_value parse l = Ok T
            /\ map (fun t => (o_country t, o_year t)) T
               = map (fun o => (o_country o, o_year o)) l
            /\ Forall (fun t => Q (o_value t)) T.
Proof.
  unfold apply_value.
  induction 1 as [|o l [x [Hx Hq]] _ [T [HT [Hk HQ]]]]; simpl.
  - exists []. repeat split; constructor.
  - rewrite Hx. simpl. rewrite HT. simpl.
    eexists. split; [reflexivity|]. simpl. split; [congruence|].
    constructor; assumption.
Qed.

Lemma apply_value_pure {Y V V' : Type} (f : V -> V') (l : list (obs Y V)) :
  apply_value (fun v => Ok (f v)) l = Ok (map_value f l).
Proof.
  unfold apply_value, map_value. induction l as [|o l IH]; simpl in *; [reflexivity|].
  rewrite IH. reflexivity.
Qed.

Lemma flat_map_map {A B C : Type} (f : A -> B) (g : B -> list C) (l : list A) :
  flat_map g (map f l) = flat_map (fun a => g (f a)) l.
Proof. induction l as [|a l IH]; simpl; congruence. Qed.

Lemma NoDup_map_inj_in {A B : Type} (f : A -> B) (l : list A) (a b : A) :
  NoDup (map f l) -> In a l -> In b l -> f a = f b -> a = b.
Proof.
  induction l as [|c l IH]; simpl; [tauto|]. intros Hn Ha Hb E.
  inversion Hn as [|? ? Hnotin Hn']; subst.
  destruct Ha as [->|Ha], Hb as [->|Hb]; auto.
  - exfalso. apply Hnotin. rewrite E. apply in_map. assumption.
  - exfalso. apply Hnotin. rewrite <- E. apply in_map. assumption.
Qed.


Lemma NoDup_map_Some {A : Type} (l : list A) : NoDup l -> NoDup (map Some l).
Proof. apply NoDup_map_injective. intros a b E. congruence. Qed.

Lemma Forall2_map_l {A B C : Type} (f : A -> C) (R : C -> B -> Prop)
  (l : list A) (l' : list B) :
  Forall2 (fun a b => R (f a) b) l l' -> Forall2 R (map f l) l'.
Proof. induction 1; simpl; constructor; assumption. Qed.

Lemma Forall2_NoDup {A B C : Type} (R : A -> B -> Prop) (g : B -> C)
  (l : list A) (l' : list B) :
  (forall a a' b b', In a l -> In a' l -> R a b -> R a' b' -> g b = g b' -> a = a') ->
  Forall2 R l l' -> NoDup l -> NoDup (map g l').
Proof.
  intros Hinj H. induction H as [|a b l l' Hab H IH]; intros Hn; simpl;
    [constructor|].
  inversion Hn as [|? ? Hnotin Hn']; subst. constructor.
  - intros Hin. apply in_map_iff in Hin. destruct Hin as [b' [E Hb']].
    destruct (Forall2_In_r _ _ _ _ H Hb') as [a' [Ha' Hab']].
    assert (a' = a) by (apply (Hinj a' a b' b); simpl; auto).
    subst a'. contradiction.
  - apply IH; [|assumption]. intros a1 a2 b1 b2 H1 H2. apply Hinj; right; assumption.
Qed.


(** ** Sorting and distinct values *)

Section Sorting.

Context {A : Type} (leb : A -> A -> bool) (lt : A -> A -> Prop).
Hypothesis leb_total : forall a b, leb a b = true \/ leb b a = true.
Hypothesis leb_strict : forall a b, leb a b = true -> a <> b -> lt a b.

Lemma insert_by_perm (a : A) (l : list A) :
  Permutation (insert_by leb a l) (a :: l).
Proof.
  induction l as [|b l IH]; simpl; [reflexivity|].
  destruct (leb a b); [reflexivity|].
  rewrite IH. apply perm_swap.
Qed.

Lemma sorted_by_perm (l : list A) : Permutation (sorted_by leb l) l.
Proof.
  induction l as [|a l IH]; simpl; [reflexivity|].
  rewrite insert_by_perm. apply perm_skip, IH.
Qed.

Lemma insert_by_HdRel (a b : A) (l : list A) :
  leb b a = true -> HdRel (fun x y => leb x y = true) b l ->
  HdRel (fun x y => leb x y = true) b (insert_by leb a l).
Proof.
  intros Hba H. destruct l as [|c l]; simpl; [constructor; assumption|].
  inversion H; subst. destruct (leb a c); constructor; assumption.
Qed.

Lemma insert_by_sorted (a : A) (l : list A) :
  Sorted (fun x y => leb x y = true) l ->
  Sorted (fun x y => leb x y = true) (insert_by leb a l).
Proof.
  induction 1 as [|b l Hs IH Hd]; simpl.
  - repeat constructor.
  - destruct (leb a b) eqn:E.
    + constructor; [constructor; assumption|]. constructor. assumption.
    + constructor; [assumption|]. apply insert_by_HdRel; [|assumption].
      destruct (leb_total a b) as [H|H]; congruence.
Qed.

Lemma sorted_by_sorted (l : list A) :
  Sorted (fun x y => leb x y = true) (sorted_by leb l).
Proof.
  induction l as [|a l IH]; simpl; [constructor|].
  apply insert_by_sorted, IH.
Qed.

Lemma sorted_nodup_strict (l : list A) :
  Sorted (fun x y => leb x y = true) l -> NoDup l -> Sorted lt l.
Proof.
  induction 1 as [|a l Hs IH Hd]; intros Hn; [constructor|].
  inversion Hn as [|? ? Hnotin Hn']; subst.
  constructor; [auto|].
  destruct Hd as [|b l Hab]; constructor.
  apply leb_strict; [assumption|]. intros ->. apply Hnotin. left. reflexivity.
Qed.

(** The sorted list of distinct values is strictly increasing and has the
    same members. *)
Lemma sorted_by_strict (l : list A) :
  NoDup l ->
  Sorted lt (sorted_by leb l) /\ forall x, In x (sorted_by leb l) <-> In x l.
Proof.
  intros Hn. split.
  - apply sorted_nodup_strict; [apply sorted_by_sorted|].
    apply (Permutation_NoDup (l := l)); [|assumption].
    symmetry. apply sorted_by_perm.
  - intros x. split; apply Permutation_in;
      [apply sorted_by_perm | symmetry; apply sorted_by_perm].
Qed.

End Sorting.

Section Unique.

Context {A : Type} (eqb : A -> A -> bool).
Hypothesis eqb_eq : forall a b, eqb a b = true <-> a = b.

Lemma unique_In (l : list A) (x : A) : In x (unique eqb l) <-> In x l.
Proof.
  induction l as [|a l IH]; simpl; [tauto|].
  rewrite filter_In, IH. split.
  - intros [H|[H _]]; auto.
  - intros [H|H]; [auto|].
    destruct (eqb a x) eqn:E.
    + left. apply eqb_eq. assumption.
    + right. auto.
Qed.

Lemma unique_NoDup (l : list A) : NoDup (unique eqb l).
Proof.
  induction l as [|a l IH]; simpl; constructor.
  - rewrite filter_In. intros [_ H].
    assert (E : eqb a a = true) by (apply eqb_eq; reflexivity).
    rewrite E in H. discriminate.
  - apply NoDup_filter. assumption.
Qed.

End Unique.

Lemma country_eqb_iff (a b : option string) : country_eqb a b = true <-> a = b.
Proof.
  split; [apply country_eqb_eq|]. intros ->. apply country_eqb_refl.
Qed.

Lemma string_leb_strict (s t : string) :
  String.leb s t = true -> s <> t -> String.ltb s t = true.
Proof.
  unfold String.leb, String.ltb. intros H Hne.
  destruct (String.compare s t) eqn:E; try reflexivity; try discriminate.
  apply String.compare_eq_iff in E. contradiction.
Qed.

Lemma Z_leb_total (a b : Z) : (a <=? b) = true \/ (b <=? a) = true.
Proof. rewrite !Z.leb_le. lia. Qed.

Lemma Z_leb_strict (a b : Z) : (a <=? b) = true -> a <> b -> a < b.
Proof. rewrite Z.leb_le. lia. Qed.

Lemma somes_Forall {A : Type} (l : list (option A)) :
  Forall (fun o => o <> None) l -> exists names, somes l = Some names.
Proof.
  induction 1 as [|o l Ho _ [names IH]]; simpl.
  - eexists; reflexivity.
  - destruct o as [a|]; [|contradiction]. rewrite IH. eexists; reflexivity.
Qed.

Lemma somes_map {A : Type} (l : list (option A)) (names : list A) :
  somes l = Some names -> l = map Some names.
Proof.
  revert names; induction l as [|o l IH]; simpl; intros names H.
  - injection H as <-. reflexivity.
  - destruct o as [a|]; [|discriminate].
    destruct (somes l) as [ns|]; [|discriminate].
    injection H as <-. simpl. f_equal. apply IH. reflexivity.
Qed.

(** A run of missing cells takes the value of the cell before the run. *)
Lemma ffill_cells_run (last : option value) (pre gap post : list value) (a : value) :
  isna a = false -> Forall (fun v => isna v = true) gap ->
  ffill_cells last (pre ++ a :: gap ++ post)
  = ffill_cells last pre ++ a :: repeat a (List.length gap)
      ++ ffill_cells (Some a) post.
Proof.
  intros Ha Hgap. revert last. induction pre as [|p pre IH]; intros last.
  - simpl. rewrite Ha. f_equal.
    induction Hgap as [|v gap Hv _ IHg]; simpl; [reflexivity|].
    rewrite Hv, IHg. reflexivity.
  - simpl. destruct (isna p); [destruct last|]; rewrite IH; reflexivity.
Qed.

(** The keys of a melted table: every header with every country, the
    headers in the outer loop. *)
Lemma melt_keys (df : frame) :
  map (fun o => (o_country o, o_year o)) (melt df)
  = flat_map (fun j => map (fun r => (country r, nth j (columns df) ""%string))
                           (rows df))
             (seq 0 (List.length (columns df))).
Proof.
  unfold melt. rewrite map_flat_map. apply flat_map_ext. intros j.
  rewrite map_map. reflexivity.
Qed.

Lemma ffill_countries (df : frame) :
  map country (rows (ffill df)) = map country (rows df).
Proof.
  unfold ffill. simpl. rewrite map_map. reflexivity.
Qed.

Lemma melt_keys_NoDup (df : frame) :
  NoDup (map country (rows df)) -> NoDup (columns df) ->
  NoDup (map (fun o => (o_country o, o_year o)) (melt df)).
Proof.
  intros Hc Hh. rewrite melt_keys. apply NoDup_flat_map.
  - apply seq_NoDup.
  - intros j _.
    replace (map (fun r => (country r, nth j (columns df) ""%string)) (rows df))
      with (map (fun c => (c, nth j (columns df) ""%string)) (map country (rows df)))
      by (rewrite map_map; reflexivity).
    apply NoDup_map_injective; [|assumption].
    intros a b E. congruence.
  - intros a b x Ha Hb Hxa Hxb. apply in_seq in Ha, Hb.
    apply in_map_iff in Hxa, Hxb.
    destruct Hxa as [r [<- _]], Hxb as [r' [E _]].
    apply (proj1 (NoDup_nth (columns df) ""%string) Hh); try lia. congruence.
Qed.

(** ** The pipeline *)

Section PipelineFacts.

Variable to_numeric_str : string -> float.

Lemma load_inv (fs : filesystem) (d : list (merged Z)) :
  load_and_process_data to_numeric_str fs = Ok d ->
  exists pf lf gf,
    read_inputs fs = Ok (pf, lf, gf) /\ process to_numeric_str pf lf gf = Ok d.
Proof.
  unfold load_and_process_data. intros H. apply bind_ok in H.
  destruct H as [[[pf lf] gf] [Hr H]]. exists pf, lf, gf. auto.
Qed.

Lemma process_inv (pf lf gf : frame) (d : list (merged Z)) :
  process to_numeric_str pf lf gf = Ok d ->
  exists P G,
    apply_value parse_number (reshape to_numeric_str pf) = Ok P
    /\ apply_value parse_number (reshape to_numeric_str gf) = Ok G
    /\ validate (align (restrict_years P)
                       (restrict_years
                          (map_value (to_numeric to_numeric_str)
                                     (reshape to_numeric_str lf)))
                       (restrict_years G)) = Ok d.
Proof.
  unfold process. intros H. apply bind_ok in H. destruct H as [P [HP H]].
  apply bind_ok in H. destruct H as [G [HG H]]. exists P, G. auto.
Qed.

(** Every record of the final dataset is made of one observation of each
    tidy table, all three with its country and one same year in the range. *)
Lemma final_record_origin (pf lf gf : frame) (d : list (merged Z)) :
  process to_numeric_str pf lf gf = Ok d ->
  exists P G,
    apply_value parse_number (reshape to_numeric_str pf) = Ok P
    /\ apply_value parse_number (reshape to_numeric_str gf) = Ok G
    /\ forall r, In r d ->
       exists p l g,
         In p P
         /\ In l (map_value (to_numeric to_numeric_str) (reshape to_numeric_str lf))
         /\ In g G
         /\ year_in_range p = true
         /\ o_country p = m_country r /\ o_country l = m_country r
         /\ o_country g = m_country r
         /\ o_year l = o_year p /\ o_year g = o_year p
         /\ astype_int (o_year p) = Ok (m_year r)
         /\ population r = o_value p /\ life_expectancy r = o_value l
         /\ gni_per_capita r = o_value g
         /\ not_missing {| m_country := o_country p; m_year := o_year p;
                           population := o_value p; life_expectancy := o_value l;
                           gni_per_capita := o_value g |} = true
         /\ all_positive {| m_country := o_country p; m_year := o_year p;
                            population := o_value p; life_expectancy := o_value l;
                            gni_per_capita := o_value g |} = true.
Proof.
  intros H. apply process_inv in H. destruct H as [P [G [HP [HG H]]]].
  exists P, G. split; [assumption|]. split; [assumption|].
  intros r Hr. destruct (validate_In _ _ _ H Hr) as [m [Hm [Hna [Hpos Hy]]]].
  apply align_In in Hm.
  destruct Hm as [p [l [g [Hp [Hl [Hg [Yp [Cl [Cg [Yl [Yg ->]]]]]]]]]]].
  apply year_to_int_fields in Hy. simpl in Hy.
  destruct Hy as [Hy [Hc [Hpop [Hlife Hgni]]]].
  exists p, l, g. repeat split; auto; congruence.
Qed.

Lemma final_country_present (fs : filesystem) (d : list (merged Z)) :
  load_and_process_data to_numeric_str fs = Ok d ->
  Forall (fun r => m_country r <> None) d.
Proof.
  intros H. apply load_inv in H. destruct H as [pf [lf [gf [_ H]]]].
  apply final_record_origin in H. destruct H as [P [G [_ [_ H]]]].
  apply Forall_forall. intros r Hr.
  destruct (H r Hr) as [p [l [g (_ & _ & _ & _ & Cp & _ & _ & _ & _ & _
                                  & _ & _ & _ & Hna & _)]]].
  unfold not_missing in Hna. simpl in Hna.
  repeat (apply andb_prop in Hna; destruct Hna as [Hna ?]).
  rewrite <- Cp. intros E. rewrite E in Hna. discriminate.
Qed.

(** C4: every record of the final dataset has a country, three numeric
    fields that are present and strictly positive, and an integer year from
    1990 to 2023; so no record has the year 1989 or a life expectancy of 0. *)
Theorem final_dataset_invariant (fs : filesystem) (d : list (merged Z)) :
  load_and_process_data to_numeric_str fs = Ok d ->
  Forall (fun r =>
            m_country r <> None
            /\ PrimFloat.is_nan (population r) = false
            /\ PrimFloat.is_nan (life_expectancy r) = false
            /\ PrimFloat.is_nan (gni_per_capita r) = false
            /\ (0 <? population r)%float = true
            /\ (0 <? life_expectancy r)%float = true
            /\ (0 <? gni_per_capita r)%float = true
            /\ 1990 <= m_year r <= 2023
            /\ m_year r <> 1989
            /\ life_expectancy r <> 0%float) d.
Proof.
  intros H. apply load_inv in H. destruct H as [pf [lf [gf [_ H]]]].
  apply final_record_origin in H. destruct H as [P [G [_ [_ H]]]].
  apply Forall_forall. intros r Hr.
  destruct (H r Hr) as [p [l [g (_ & _ & _ & Yp & Cp & _ & _ & _ & _ & Hy
                                  & Hpop & Hlife & Hgni & Hna & Hpos)]]].
  unfold year_in_range, in_years in Yp. apply andb_prop in Yp. destruct Yp as [Ya Yb].
  destruct (astype_int_year _ Ya Yb) as [n [Hn Hrange]].
  assert (m_year r = n) by congruence. subst n.
  unfold all_positive in Hpos. simpl in Hpos.
  apply andb_prop in Hpos. destruct Hpos as [Hpos P3].
  apply andb_prop in Hpos. destruct Hpos as [P1 P2].
  unfold not_missing in Hna. simpl in Hna.
  repeat (apply andb_prop in Hna; destruct Hna as [Hna ?]).
  rewrite Hpop, Hlife, Hgni.
  repeat split; auto using positive_not_nan; try lia.
  - rewrite <- Cp. intros E. rewrite E in Hna. discriminate.
  - intros E. rewrite E in P2. vm_compute in P2. discriminate.
Qed.


(** C9: the summaries the script hands to the controls are the years of the
    final dataset and its country names, each one time and in increasing
    order. *)
Theorem summaries_sorted_distinct (fs : filesystem) (data : list (merged Z))
  (ys : list Z) (cs : list (option string)) :
  script to_numeric_str fs = Dashboard data ys cs ->
  load_and_process_data to_numeric_str fs = Ok data
  /\ Sorted Z.lt ys
  /\ (forall y, In y ys <-> exists r, In r data /\ m_year r = y)
  /\ exists names,
       cs = map Some names
       /\ Sorted (fun s t => String.ltb s t = true) names
       /\ forall c, In c names <-> exists r, In r data /\ m_country r = Some c.
Proof.
  unfold script. intros H.
  destruct (load_and_process_data to_numeric_str fs) as [d|e] eqn:Hload;
    [|discriminate].
  destruct (List.length d =? 0)%nat; [discriminate|].
  destruct (countries d) as [cs'|e] eqn:Hcs; [|discriminate].
  injection H as <- <- <-. split; [reflexivity|].
  destruct (sorted_by_strict Z.leb Z.lt Z_leb_total Z_leb_strict
              (unique Z.eqb (map m_year d)) (unique_NoDup Z.eqb Z.eqb_eq _))
    as [Hsorted Hmem].
  split; [exact Hsorted|]. split.
  - intros y. unfold years. rewrite Hmem, (unique_In Z.eqb Z.eqb_eq), in_map_iff.
    split; intros [r [H1 H2]]; exists r; auto.
  - pose proof (final_country_present fs d Hload) as Hinv.
    assert (Hsome : Forall (fun o : option string => o <> None)
                           (unique country_eqb (map m_country d))).
    { apply Forall_forall. intros o Ho.
      rewrite (unique_In country_eqb country_eqb_iff) in Ho.
      apply in_map_iff in Ho. destruct Ho as [r [<- Hr]].
      rewrite Forall_forall in Hinv. apply (Hinv r Hr). }
    destruct (somes_Forall _ Hsome) as [names Hnames].
    unfold countries, sorted_countries in Hcs. rewrite Hnames in Hcs.
    injection Hcs as <-.
    apply somes_map in Hnames.
    assert (Hnd : NoDup names).
    { apply (NoDup_map_inv Some). rewrite <- Hnames.
      apply (unique_NoDup country_eqb country_eqb_iff). }
    destruct (sorted_by_strict String.leb (fun s t => String.ltb s t = true)
                String.leb_total string_leb_strict names Hnd) as [Hs Hm].
    exists (sorted_by String.leb names). split; [reflexivity|].
    split; [exact Hs|].
    intros c. rewrite Hm.
    assert (E : In c names <-> In (Some c) (unique country_eqb (map m_country d))).
    { rewrite Hnames, in_map_iff. split.
      - intros Hc. exists c. auto.
      - intros [c' [Hc' Hin]]. congruence. }
    rewrite E, (unique_In country_eqb country_eqb_iff), in_map_iff.
    split; intros [r [H1 H2]]; exists r; auto.
Qed.

Lemma ffill_cells_id (last : option value) (l : list value) :
  Forall (fun c => isna c = false) l -> ffill_cells last l = l.
Proof.
  intros H. revert last. induction H as [|c l Hc _ IH]; intros last; simpl.
  - reflexivity.
  - rewrite Hc, IH. reflexivity.
Qed.

Lemma ffill_row_cells (r : row) :
  Forall (fun c => isna c = false) (cells r) -> cells (ffill_row r) = cells r.
Proof.
  intros H. unfold ffill_row. simpl.
  destruct (isna (country_cell (country r))); [destruct (country r)|];
    simpl; apply ffill_cells_id; assumption.
Qed.

Lemma melt_In (df : frame) (o : obs string value) :
  In o (melt df) <->
  exists j r, (j < List.length (columns df))%nat /\ In r (rows df)
              /\ o = {| o_country := country r;
                        o_year := nth j (columns df) ""%string;
                        o_value := nth j (cells r) (VFloat nan) |}.
Proof.
  unfold melt. rewrite in_flat_map. split.
  - intros [j [Hj H]]. apply in_seq in Hj.
    apply in_map_iff in H. destruct H as [r [<- Hr]].
    exists j, r. repeat split; auto; lia.
  - intros [j [r [Hj [Hr ->]]]]. exists j. split; [apply in_seq; lia|].
    apply in_map_iff. exists r. auto.
Qed.

Lemma reshape_In (df : frame) (o : obs float value) :
  In o (reshape to_numeric_str df) <->
  exists j r, (j < List.length (columns df))%nat /\ In r (rows df)
              /\ o = {| o_country := country r;
                        o_year := to_numeric_str (nth j (columns df) ""%string);
                        o_value := nth j (cells (ffill_row r)) (VFloat nan) |}.
Proof.
  unfold reshape, map_year. rewrite in_map_iff. split.
  - intros [m [<- Hm]]. apply melt_In in Hm.
    destruct Hm as [j [r' [Hj [Hr' ->]]]]. simpl in *.
    apply in_map_iff in Hr'. destruct Hr' as [r [<- Hr]].
    exists j, r. auto.
  - intros [j [r [Hj [Hr ->]]]].
    exists {| o_country := country r;
              o_year := nth j (columns df) ""%string;
              o_value := nth j (cells (ffill_row r)) (VFloat nan) |}.
    split; [reflexivity|]. apply melt_In. exists j, (ffill_row r).
    simpl. repeat split; auto. apply in_map. assumption.
Qed.

(** A table whose cells are all present and not above zero gives tidy values
    that are not above zero. *)
Lemma not_positive_values (lf : frame) (o : obs float float) :
  Forall (fun r => Forall (not_positive to_numeric_str) (cells r)) (rows lf) ->
  In o (map_value (to_numeric to_numeric_str) (reshape to_numeric_str lf)) ->
  (0 <? o_value o)%float = false.
Proof.
  intros Hz Ho. unfold map_value in Ho. apply in_map_iff in Ho.
  destruct Ho as [o' [<- Ho']]. simpl.
  apply reshape_In in Ho'. destruct Ho' as [j [r [_ [Hr ->]]]]. cbn [o_value].
  rewrite Forall_forall in Hz. specialize (Hz r Hr).
  rewrite ffill_row_cells.
  - destruct (nth_in_or_default j (cells r) (VFloat nan)) as [Hin|Hdef].
    + rewrite Forall_forall in Hz. apply (Hz _ Hin).
    + rewrite Hdef. reflexivity.
  - eapply Forall_impl; [|exact Hz]. intros c [Hc _]. exact Hc.
Qed.

(** C7: when the final dataset is empty the script shows the error and
    stops, so no dashboard is built; a life-expectancy table that holds only
    zeros makes the final dataset empty. *)
Theorem empty_dataset_stops (fs : filesystem) (d : list (merged Z)) :
  load_and_process_data to_numeric_str fs = Ok d ->
  (d = [] ->
   script to_numeric_str fs = Stopped "No data available after processing!")
  /\ (forall pf lf gf,
        read_inputs fs = Ok (pf, lf, gf) ->
        Forall (fun r => Forall (not_positive to_numeric_str) (cells r)) (rows lf) ->
        d = []).
Proof.
  intros H. split.
  - intros ->. unfold script. rewrite H. reflexivity.
  - intros pf lf gf Hr Hz.
    apply load_inv in H. destruct H as [pf' [lf' [gf' [Hr' H]]]].
    rewrite Hr in Hr'. injection Hr' as <- <- <-.
    apply final_record_origin in H. destruct H as [P [G [_ [_ H]]]].
    destruct d as [|r d]; [reflexivity|]. exfalso.
    destruct (H r (or_introl eq_refl))
      as [p [l [g (_ & Hl & _ & _ & _ & _ & _ & _ & _ & _ & _ & _ & _ & _ & Hpos)]]].
    apply (not_positive_values lf l Hz) in Hl.
    unfold all_positive in Hpos. simpl in Hpos. rewrite Hl in Hpos.
    rewrite andb_false_r in Hpos. discriminate.
Qed.

(** C10, as amended: the fill crosses from the country column into the first
    year column. The first year cell of a row is missing: when the row has
    no country name either, the cell stays missing; when the row has the
    name c, the tidy record of that cell holds the text c. Downstream, the
    life-expectancy table holds for it what [pd.to_numeric] reads in c:
    missing when it reads no number, the number otherwise. For a name that
    does not end in k, M or B, the population and GNI tables hold missing
    when [float] rejects the name and the number [float] reads otherwise. *)
Theorem fill_crosses_country_column (df : frame) (r : row) (h : string)
  (hs : list string) (v : value) (rest : list value) :
  columns df = h :: hs -> In r (rows df) ->
  cells r = v :: rest -> isna v = true ->
  (country r = None ->
   In {| o_country := None; o_year := to_numeric_str h; o_value := v |}
      (reshape to_numeric_str df))
  /\ (forall c, country r = Some c ->
      In {| o_country := Some c; o_year := to_numeric_str h; o_value := VStr c |}
         (reshape to_numeric_str df)
      /\ (exists x,
            In {| o_country := Some c; o_year := to_numeric_str h; o_value := x |}
               (map_value (to_numeric to_numeric_str) (reshape to_numeric_str df))
            /\ (to_numeric_str c = nan -> x = nan)
            /\ (c <> ""%string -> x = to_numeric_str c))
      /\ (endswith (strip c) "k" = false -> endswith (strip c) "M" = false ->
          endswith (strip c) "B" = false ->
          forall P, apply_value parse_number (reshape to_numeric_str df) = Ok P ->
          exists x,
            In {| o_country := Some c; o_year := to_numeric_str h; o_value := x |} P
            /\ (float_of_str (strip c) = Raise ValueError -> x = nan)
            /\ (forall y, float_of_str (strip c) = Ok y -> x = y))).
Proof.
  intros Hcols Hr Hcells Hv.
  assert (Hin : In {| o_country := country r; o_year := to_numeric_str h;
                      o_value := nth 0 (cells (ffill_row r)) (VFloat nan) |}
                   (reshape to_numeric_str df)).
  { apply reshape_In. exists 0%nat, r. rewrite Hcols. simpl.
    split; [lia|]. split; [assumption|reflexivity]. }
  split.
  - intros Hc. rewrite Hc in Hin. unfold ffill_row in Hin.
    rewrite Hc, Hcells in Hin. simpl in Hin. rewrite Hv in Hin. exact Hin.
  - intros c Hc. rewrite Hc in Hin. unfold ffill_row in Hin.
    rewrite Hc, Hcells in Hin. simpl in Hin. rewrite Hv in Hin.
    split; [exact Hin|]. split.
    + exists (to_numeric to_numeric_str (VStr c)). split; [|split].
      * unfold map_value. apply in_map_iff.
        exists {| o_country := Some c; o_year := to_numeric_str h;
                  o_value := VStr c |}. split; [reflexivity|exact Hin].
      * intros H. simpl. rewrite H. destruct (String.eqb c ""); reflexivity.
      * intros H. simpl. apply String.eqb_neq in H. rewrite H. reflexivity.
    + intros Hk HM HB P HP.
      destruct (apply_value_In parse_number _ P _ HP Hin) as [x [Hx HxP]].
      exists x. split; [exact HxP|].
      change (parse_number (VStr c) = Ok x) in Hx.
      rewrite parse_number_plain in Hx by assumption.
      split.
      * intros Hf. rewrite Hf in Hx. injection Hx as <-. reflexivity.
      * intros y Hf. rewrite Hf in Hx. injection Hx as <-. reflexivity.
Qed.

(** ** Complete tables *)


Lemma grid_In (cs : list (option string)) (hs : list string) (k : key) :
  In k (grid to_numeric_str cs hs)
  <-> In (fst k) cs /\ In (snd k) (map to_numeric_str hs).
Proof.
  unfold grid. rewrite in_flat_map. split.
  - intros [h [Hh Hk]]. apply in_map_iff in Hk. destruct Hk as [c [<- Hc]].
    simpl. split; [assumption|]. apply in_map. assumption.
  - intros [Hc Hy]. apply in_map_iff in Hy. destruct Hy as [h [Hy Hh]].
    exists h. split; [assumption|]. apply in_map_iff. exists (fst k).
    split; [|assumption]. destruct k; simpl in *; congruence.
Qed.

Lemma grid_NoDup (cs : list (option string)) (hs : list string) :
  NoDup cs -> NoDup (map to_numeric_str hs) -> NoDup (grid to_numeric_str cs hs).
Proof.
  intros Hc Hh. unfold grid. apply NoDup_flat_map.
  - apply (NoDup_map_inv to_numeric_str). assumption.
  - intros h _. apply NoDup_map_injective; [|assumption]. intros a b E. congruence.
  - intros a b x Ha Hb Hxa Hxb. apply in_map_iff in Hxa, Hxb.
    destruct Hxa as [c [<- _]], Hxb as [c' [E _]].
    apply (NoDup_map_inj_in to_numeric_str hs); auto. congruence.
Qed.

Lemma grid_length (cs : list (option string)) (hs : list string) :
  List.length (grid to_numeric_str cs hs) = (List.length hs * List.length cs)%nat.
Proof.
  unfold grid. apply length_flat_map_const. intros h _. apply length_map.
Qed.

Lemma reshape_keys (df : frame) :
  map okey (reshape to_numeric_str df)
  = grid to_numeric_str (map country (rows df)) (columns df).
Proof.
  unfold reshape, map_year, melt, grid, okey. rewrite map_map. simpl.
  rewrite map_flat_map.
  rewrite <- (map_nth_seq (columns df) ""%string) at 2.
  rewrite flat_map_map. apply flat_map_ext. intros j.
  rewrite !map_map. reflexivity.
Qed.

(** The years of headers that stand for integers. *)
Lemma header_years (hs : list string) (ns : list Z) :
  reads_integers to_numeric_str ->
  map header_int hs = map Some ns -> Forall (fun n => n <= 9999) ns ->
  map to_numeric_str hs = map Z_to_float ns.
Proof.
  intros R. revert ns. induction hs as [|h hs IH]; intros [|n ns] E Hr;
    try discriminate; [reflexivity|].
  simpl in E. injection E as E1 E2. inversion Hr as [|? ? Hn Hns]; subst.
  simpl. rewrite (R h n E1) by lia. rewrite (IH ns E2 Hns). reflexivity.
Qed.

(** C3: the fill runs along the row before the table is melted and before
    any value is parsed, so the blank of 1991 takes the 10 of 1990, as any
    run of blanks takes the value of the cell before it; the tidy table has
    one record for every row and every year column, in the order of the
    columns. Its year is the header converted to a number: when the
    conversion reads a header of digits as its integer, as pandas does, the
    record of a header that stands for the integer n has the year n, which
    the conversion to int gives back, so the records of the example are
    (A, 1990, 10), (A, 1991, 10) and (A, 1992, 30). With distinct countries
    no pair of country and column comes twice when the headers are
    distinct, and no pair of country and year when the years are. *)
Theorem reshape_forward_filled (df : frame) :
  reads_integers to_numeric_str ->
  reshape to_numeric_str gap_frame
  = [ {| o_country := Some "A"%string; o_year := 1990%float;
         o_value := VInt 10 |};
      {| o_country := Some "A"%string; o_year := 1991%float;
         o_value := VInt 10 |};
      {| o_country := Some "A"%string; o_year := 1992%float;
         o_value := VInt 30 |} ]
  /\ map (fun o => astype_int (o_year o)) (reshape to_numeric_str gap_frame)
     = [Ok 1990; Ok 1991; Ok 1992]
  /\ apply_value parse_number (reshape to_numeric_str gap_frame)
     = Ok [ {| o_country := Some "A"%string; o_year := 1990%float;
               o_value := 10%float |};
            {| o_country := Some "A"%string; o_year := 1991%float;
               o_value := 10%float |};
            {| o_country := Some "A"%string; o_year := 1992%float;
               o_value := 30%float |} ]
  /\ (forall last pre gap post a,
      isna a = false -> Forall (fun v => isna v = true) gap ->
      ffill_cells last (pre ++ a :: gap ++ post)
      = ffill_cells last pre ++ a :: repeat a (List.length gap)
          ++ ffill_cells (Some a) post)
  /\ reshape to_numeric_str df = map_year to_numeric_str (melt (ffill df))
  /\ List.length (reshape to_numeric_str df)
     = (List.length (columns df) * List.length (rows df))%nat
  /\ (forall j r, (j < List.length (columns df))%nat -> In r (rows df) ->
      In {| o_country := country r;
            o_year := to_numeric_str (nth j (columns df) ""%string);
            o_value := nth j (cells (ffill_row r)) (VFloat nan) |}
         (reshape to_numeric_str df))
  /\ (forall j r n, (j < List.length (columns df))%nat -> In r (rows df) ->
      header_int (nth j (columns df) ""%string) = Some n -> n <= 9999 ->
      In {| o_country := country r;
            o_year := Z_to_float n;
            o_value := nth j (cells (ffill_row r)) (VFloat nan) |}
         (reshape to_numeric_str df)
      /\ astype_int (Z_to_float n) = Ok n)
  /\ (NoDup (map country (rows df)) -> NoDup (columns df) ->
      NoDup (map (fun o => (o_country o, o_year o)) (melt (ffill df))))
  /\ (forall ns, map header_int (columns df) = map Some ns ->
      Forall (fun n => n <= 9999) ns -> NoDup ns ->
      NoDup (map country (rows df)) ->
      NoDup (map okey (reshape to_numeric_str df))).
Proof.
  intros R.
  assert (Y0 : to_numeric_str "1990" = 1990%float)
    by (rewrite (R "1990"%string 1990); reflexivity).
  assert (Y1 : to_numeric_str "1991" = 1991%float)
    by (rewrite (R "1991"%string 1991); reflexivity).
  assert (Y2 : to_numeric_str "1992" = 1992%float)
    by (rewrite (R "1992"%string 1992); reflexivity).
  assert (E : reshape to_numeric_str gap_frame
              = [ {| o_country := Some "A"%string; o_year := 1990%float;
                     o_value := VInt 10 |};
                  {| o_country := Some "A"%string; o_year := 1991%float;
                     o_value := VInt 10 |};
                  {| o_country := Some "A"%string; o_year := 1992%float;
                     o_value := VInt 30 |} ]).
  { rewrite <- Y0, <- Y1, <- Y2. reflexivity. }
  split; [exact E|]. rewrite E.
  split; [vm_compute; reflexivity|]. split; [reflexivity|].
  split; [intros; apply ffill_cells_run; assumption|].
  split; [reflexivity|]. split; [|split; [|split; [|split]]].
  - unfold reshape, map_year, melt. rewrite length_map.
    rewrite (length_flat_map_const _ _ (List.length (rows df))).
    + rewrite length_seq. reflexivity.
    + intros j _. rewrite length_map. unfold ffill. simpl. apply length_map.
  - intros j r Hj Hr. apply reshape_In. exists j, r. auto.
  - intros j r n Hj Hr Hn Hle.
    pose proof (header_int_nonneg _ _ Hn) as H0.
    split; [|apply astype_int_small; lia].
    rewrite <- (R _ n Hn) by lia. apply reshape_In. exists j, r. auto.
  - intros Hc Hh. apply melt_keys_NoDup; [|assumption].
    rewrite ffill_countries. assumption.
  - intros ns Hns Hle Hnd Hc. rewrite reshape_keys.
    apply grid_NoDup; [assumption|].
    rewrite (header_years _ _ R Hns Hle).
    apply Z_to_float_small_NoDup; [|assumption].
    apply Forall_forall. intros n Hn. rewrite Forall_forall in Hle.
    split; [|apply Hle; assumption].
    assert (Hin : In (Some n) (map header_int (columns df)))
      by (rewrite Hns; apply in_map; assumption).
    apply in_map_iff in Hin. destruct Hin as [h [Hh _]].
    exact (header_int_nonneg _ _ Hh).
Qed.

Lemma complete_reshape (parse : value -> result float) (names hs : list string)
  (df : frame) :
  complete_table parse names hs df ->
  Forall (fun o => exists x, parse (o_value o) = Ok x /\ (0 <? x)%float = true)
         (reshape to_numeric_str df).
Proof.
  intros [Hcols [_ Hrows]]. apply Forall_forall. intros o Ho.
  apply reshape_In in Ho. destruct Ho as [j [r [Hj [Hr ->]]]].
  cbn [o_value]. rewrite Forall_forall in Hrows.
  destruct (Hrows r Hr) as [Hlen Hcells].
  rewrite ffill_row_cells.
  - rewrite Forall_forall in Hcells.
    apply (Hcells (nth j (cells r) (VFloat nan))).
    apply nth_In. rewrite Hlen, <- Hcols. assumption.
  - eapply Forall_impl; [|exact Hcells]. intros c [Hc _]. exact Hc.
Qed.

(** The tidy table of a complete table: the parse succeeds on every cell,
    the keys are the whole grid, the values are positive, and the year
    filter keeps every observation. *)
Lemma complete_tidy (parse : value -> result float) (names hs : list string)
  (df : frame) :
  Forall (fun h => in_years (to_numeric_str h) = true) hs ->
  complete_table parse names hs df ->
  exists T,
    apply_value parse (reshape to_numeric_str df) = Ok T
    /\ map okey (restrict_years T) = grid to_numeric_str (map country (rows df)) hs
    /\ Forall (fun t => (0 <? o_value t)%float = true) (restrict_years T)
    /\ restrict_years T = T.
Proof.
  intros Hy Hc. pose proof (complete_reshape parse names hs df Hc) as Hv.
  destruct (apply_value_total parse (fun x => (0 <? x)%float = true) _ Hv)
    as [T [HT [Hk HQ]]].
  assert (Hkeys : map okey T = grid to_numeric_str (map country (rows df)) hs).
  { destruct Hc as [Hcols _]. rewrite <- Hcols, <- reshape_keys. exact Hk. }
  assert (Hid : restrict_years T = T).
  { unfold restrict_years. apply filter_all. apply Forall_forall. intros t Ht.
    assert (Hin : In (okey t) (grid to_numeric_str (map country (rows df)) hs))
      by (rewrite <- Hkeys; apply in_map; assumption).
    apply grid_In in Hin. destruct Hin as [_ Hin]. simpl in Hin.
    apply in_map_iff in Hin. destruct Hin as [h [E Hh]].
    rewrite Forall_forall in Hy. unfold year_in_range. rewrite <- E. auto. }
  exists T. rewrite Hid. auto.
Qed.


Section CompleteTables.

Variables names hs : list string.
Hypothesis names_distinct : NoDup names.
Hypothesis years_distinct : NoDup (map to_numeric_str hs).
Hypothesis years_in_range : Forall (fun h => in_years (to_numeric_str h) = true) hs.

Lemma grid_in_years (cs : list (option string)) (k : key) :
  In k (grid to_numeric_str cs hs) -> in_years (snd k) = true.
Proof.
  intros H. apply grid_In in H. destruct H as [_ H].
  apply in_map_iff in H. destruct H as [h [<- Hh]].
  rewrite Forall_forall in years_in_range. auto.
Qed.

(** Two tables with the same countries: every key of the first has exactly
    one match in the second. *)
Lemma grid_one_match {R : Type} (rkey : R -> key) (right : list R)
  (cs cs' : list (option string)) (k : key) :
  Permutation cs (map Some names) -> Permutation cs' (map Some names) ->
  map rkey right = grid to_numeric_str cs' hs ->
  In k (grid to_numeric_str cs hs) ->
  exists r0, filter (fun r => key_eqb k (rkey r)) right = [r0].
Proof.
  intros Hcs Hcs' Hkeys Hk. apply filter_unique_key.
  - apply (grid_in_years cs). assumption.
  - rewrite Hkeys. apply grid_NoDup; [|assumption].
    apply (Permutation_NoDup (l := map Some names)); [symmetry; assumption|].
    apply NoDup_map_Some. assumption.
  - rewrite Hkeys. apply grid_In. apply grid_In in Hk. destruct Hk as [Hc Hy].
    split; [|assumption].
    apply (Permutation_in _ (Permutation_sym Hcs')).
    apply (Permutation_in _ Hcs). assumption.
Qed.

Lemma complete_process (pf lf gf : frame) :
  complete_table parse_number names hs pf ->
  complete_table (fun c => Ok (to_numeric to_numeric_str c)) names hs lf ->
  complete_table parse_number names hs gf ->
  exists d, process to_numeric_str pf lf gf = Ok d
            /\ Forall2 (fun k r => m_country r = fst k
                                   /\ astype_int (snd k) = Ok (m_year r))
                       (grid to_numeric_str (map country (rows pf)) hs) d.
Proof.
  intros Cp Cl Cg.
  destruct (complete_tidy _ _ _ pf years_in_range Cp)
    as [P [HP [KP [VP IP]]]].
  destruct (complete_tidy _ _ _ lf years_in_range Cl)
    as [L [HL [KL [VL IL]]]].
  destruct (complete_tidy _ _ _ gf years_in_range Cg)
    as [G [HG [KG [VG IG]]]].
  rewrite apply_value_pure in HL. injection HL as HL.
  destruct Cp as [_ [PermP _]], Cl as [_ [PermL _]], Cg as [_ [PermG _]].
  unfold process. rewrite HP, HG. simpl bind. rewrite HL.
  set (P' := restrict_years P) in *. set (L' := restrict_years L) in *.
  set (G' := restrict_years G) in *.
  (* the first join *)
  pose (mk1 := fun p l : obs float float =>
                 {| o_country := o_country p; o_year := o_year p;
                    o_value := (o_value p, o_value l) |}).
  assert (M1 : Forall2 (fun p o => exists l, In l L' /\ o = mk1 p l)
                       P' (merge okey okey mk1 P' L')).
  { apply merge_one_match. intros p Hp.
    apply (grid_one_match okey L' _ _ _ PermP PermL KL).
    rewrite <- KP. apply in_map. assumption. }
  assert (K1 : map okey (merge okey okey mk1 P' L') = map okey P').
  { symmetry. apply Forall2_map_eq. eapply Forall2_impl; [|exact M1].
    intros p o [l [_ ->]]. reflexivity. }
  (* the second join *)
  pose (mk2 := fun (m : obs float (float * float)) (g : obs float float) =>
                 {| m_country := o_country m; m_year := o_year m;
                    population := fst (o_value m);
                    life_expectancy := snd (o_value m);
                    gni_per_capita := o_value g |}).
  assert (M2 : Forall2 (fun m o => exists g, In g G' /\ o = mk2 m g)
                       (merge okey okey mk1 P' L') (align P' L' G')).
  { apply merge_one_match. intros m Hm.
    apply (grid_one_match okey G' _ _ _ PermP PermG KG).
    rewrite <- KP, <- K1. apply in_map. assumption. }
  assert (K2 : map (fun m => (m_country m, m_year m)) (align P' L' G')
               = grid to_numeric_str (map country (rows pf)) hs).
  { rewrite <- KP, <- K1. symmetry. apply Forall2_map_eq.
    eapply Forall2_impl; [|exact M2]. intros m o [g [_ ->]]. reflexivity. }
  (* nothing is dropped *)
  assert (Hall : Forall (fun m => not_missing m = true /\ all_positive m = true
                                  /\ in_years (m_year m) = true)
                        (align P' L' G')).
  { apply Forall_forall. intros m Hm. unfold P', L', G' in Hm.
    apply align_In in Hm.
    destruct Hm as [p [l [g [Hp [Hl [Hg [Yp [_ [_ [_ [_ ->]]]]]]]]]]].
    rewrite <- IP in Hp. rewrite <- IL in Hl. rewrite <- IG in Hg.
    rewrite Forall_forall in VP, VL, VG.
    pose proof (VP p Hp) as Vp. pose proof (VL l Hl) as Vl.
    pose proof (VG g Hg) as Vg.
    assert (Hc : exists c, o_country p = Some c).
    { assert (Hin : In (okey p) (map okey P')) by (apply in_map; assumption).
      rewrite KP in Hin. apply grid_In in Hin. destruct Hin as [Hin _].
      apply (Permutation_in _ PermP) in Hin. apply in_map_iff in Hin.
      destruct Hin as [c [E _]]. exists c. simpl in E. congruence. }
    destruct Hc as [c Hc].
    unfold not_missing, all_positive. simpl. rewrite Hc. simpl.
    rewrite Vp, Vl, Vg.
    rewrite (in_years_not_nan _ Yp), !positive_not_nan by assumption.
    auto. }
  unfold validate.
  rewrite (filter_all not_missing), (filter_all all_positive);
    try (eapply Forall_impl; [|exact Hall]; simpl; tauto).
  assert (Htot : Forall (fun m => exists r, year_to_int m = Ok r) (align P' L' G')).
  { eapply Forall_impl; [|exact Hall]. intros m [_ [_ Hy]].
    apply in_years_bounds in Hy. destruct Hy as [Ha Hb].
    destruct (astype_int_year _ Ha Hb) as [n [Hn _]].
    unfold year_to_int. rewrite Hn. simpl. eexists; reflexivity. }
  destruct (mapM_total _ _ Htot) as [d Hd]. exists d. split; [assumption|].
  apply mapM_Forall2 in Hd. rewrite <- K2. apply Forall2_map_l.
  eapply Forall2_impl; [|exact Hd]. intros m r Hy.
  apply year_to_int_fields in Hy. simpl. tauto.
Qed.

End CompleteTables.

(** C6: three tables with the year columns 1990, 1991 and 1992, one row for
    each of Afghanistan, Albania and Algeria in any order, and a valid
    positive value in every cell give a final dataset of exactly nine records,
    one for each country and year, all with positive fields. *)
Theorem complete_tables_nine_records (fs : filesystem) (pf lf gf : frame) :
  to_numeric_str "1990" = 1990%float ->
  to_numeric_str "1991" = 1991%float ->
  to_numeric_str "1992" = 1992%float ->
  read_inputs fs = Ok (pf, lf, gf) ->
  complete_table parse_number three_countries years_90_92 pf ->
  complete_table (fun c => Ok (to_numeric to_numeric_str c))
                 three_countries years_90_92 lf ->
  complete_table parse_number three_countries years_90_92 gf ->
  exists d,
    load_and_process_data to_numeric_str fs = Ok d
    /\ List.length d = 9%nat
    /\ Forall (fun r =>
                 (0 <? population r)%float = true
                 /\ (0 <? life_expectancy r)%float = true
                 /\ (0 <? gni_per_capita r)%float = true
                 /\ In (m_year r) [1990; 1991; 1992]
                 /\ In (m_country r) (map Some three_countries)) d
    /\ NoDup (map (fun r => (m_country r, m_year r)) d).
Proof.
  intros Y0 Y1 Y2 Hread Cp Cl Cg.
  assert (Hys : map to_numeric_str years_90_92 = [1990; 1991; 1992]%float)
    by (simpl; rewrite Y0, Y1, Y2; reflexivity).
  assert (A0 : astype_int 1990%float = Ok 1990) by (vm_compute; reflexivity).
  assert (A1 : astype_int 1991%float = Ok 1991) by (vm_compute; reflexivity).
  assert (A2 : astype_int 1992%float = Ok 1992) by (vm_compute; reflexivity).
  assert (Hnames : NoDup three_countries).
  { unfold three_countries. repeat constructor; simpl; intuition discriminate. }
  assert (Hyd : NoDup (map to_numeric_str years_90_92)).
  { rewrite Hys.
    repeat (constructor;
            [simpl; intros H; repeat (destruct H as [H|H]; [float_neq|]); exact H|]).
    constructor. }
  assert (Hyr : Forall (fun h => in_years (to_numeric_str h) = true) years_90_92).
  { unfold years_90_92. repeat constructor; rewrite ?Y0, ?Y1, ?Y2; reflexivity. }
  destruct (complete_process three_countries years_90_92 Hnames Hyd Hyr
              pf lf gf Cp Cl Cg) as [d [Hd HF]].
  destruct Cp as [_ [PermP _]].
  assert (Hkey : forall k, In k (grid to_numeric_str (map country (rows pf)) years_90_92) ->
                 In (fst k) (map Some three_countries)
                 /\ (snd k = 1990%float \/ snd k = 1991%float \/ snd k = 1992%float)).
  { intros k Hk. apply grid_In in Hk. destruct Hk as [Hc Hy]. split.
    - apply (Permutation_in _ PermP). assumption.
    - rewrite Hys in Hy. simpl in Hy. intuition. }
  exists d. split; [|split; [|split]].
  - unfold load_and_process_data. rewrite Hread. exact Hd.
  - rewrite <- (Forall2_length HF), grid_length.
    rewrite (Permutation_length PermP). reflexivity.
  - apply final_record_origin in Hd. destruct Hd as [P [G [_ [_ Hd]]]].
    apply Forall_forall. intros r Hr.
    destruct (Hd r Hr) as [p [l [g (_ & _ & _ & _ & _ & _ & _ & _ & _ & _
                                     & Hpop & Hlife & Hgni & _ & Hpos)]]].
    unfold all_positive in Hpos. simpl in Hpos.
    apply andb_prop in Hpos. destruct Hpos as [Hpos P3].
    apply andb_prop in Hpos. destruct Hpos as [P1 P2].
    rewrite Hpop, Hlife, Hgni. repeat split; try assumption.
    + destruct (Forall2_In_r _ _ _ _ HF Hr) as [k [Hk [_ Hy]]].
      destruct (Hkey k Hk) as [_ [E|[E|E]]];
        rewrite E, ?A0, ?A1, ?A2 in Hy; injection Hy as <-; simpl; auto.
    + destruct (Forall2_In_r _ _ _ _ HF Hr) as [k [Hk [Hc _]]].
      rewrite Hc. apply (Hkey k Hk).
  - refine (Forall2_NoDup _ (fun r => (m_country r, m_year r)) _ _ _ HF _).
    + intros k k' r r' Hk Hk' [Hc Hy] [Hc' Hy'] E. injection E as Ec Ey.
      destruct k as [c y], k' as [c' y']. simpl in *.
      f_equal; [congruence|].
      destruct (Hkey _ Hk) as [_ Ek], (Hkey _ Hk') as [_ Ek']. simpl in Ek, Ek'.
      rewrite Ey in Hy.
      destruct Ek as [E1|[E1|E1]], Ek' as [E2|[E2|E2]]; subst y y';
        try reflexivity; rewrite ?A0, ?A1, ?A2 in Hy, Hy'; congruence.
    + apply grid_NoDup; [|assumption].
      apply (Permutation_NoDup (l := map Some three_countries));
        [symmetry; assumption|]. apply NoDup_map_Some. assumption.
Qed.

End PipelineFacts.

(** ** The theorems at sample inputs *)

Lemma final_dataset_invariant_witness :
  exists d,
    load_and_process_data to_numeric_dec sample_fs = Ok d
    /\ Forall (fun r =>
                 m_country r <> None
                 /\ PrimFloat.is_nan (population r) = false
                 /\ PrimFloat.is_nan (life_expectancy r) = false
                 /\ PrimFloat.is_nan (gni_per_capita r) = false
                 /\ (0 <? population r)%float = true
                 /\ (0 <? life_expectancy r)%float = true
                 /\ (0 <? gni_per_capita r)%float = true
                 /\ 1990 <= m_year r <= 2023
                 /\ m_year r <> 1989
                 /\ life_expectancy r <> 0%float) d.
Proof.
  eexists. split.
  - vm_compute. reflexivity.
  - apply (final_dataset_invariant to_numeric_dec sample_fs).
    vm_compute. reflexivity.
Defined.


Lemma summaries_sorted_distinct_witness :
  exists data ys cs,
    script to_numeric_dec sample_fs = Dashboard data ys cs
    /\ ys = [1990; 1991; 1992]
    /\ cs = map Some ["Afghanistan"; "Albania"; "Algeria"]%string
    /\ Sorted Z.lt ys
    /\ (forall y, In y ys <-> exists r, In r data /\ m_year r = y)
    /\ exists names,
         cs = map Some names
         /\ Sorted (fun s t => String.ltb s t = true) names
         /\ forall c, In c names <-> exists r, In r data /\ m_country r = Some c.
Proof.
  eexists _, _, _. split; [vm_compute; reflexivity|].
  split; [reflexivity|]. split; [reflexivity|].
  apply (summaries_sorted_distinct to_numeric_dec sample_fs).
  vm_compute. reflexivity.
Defined.

Lemma empty_dataset_stops_witness :
  script to_numeric_dec zero_fs = Stopped "No data available after processing!"
  /\ load_and_process_data to_numeric_dec zero_fs = Ok [].
Proof.
  assert (Hr : read_inputs zero_fs = Ok (pop_frame, zero_lex_frame, gni_frame))
    by reflexivity.
  assert (Hz : Forall (fun r => Forall (not_positive to_numeric_dec) (cells r))
                      (rows zero_lex_frame)).
  { repeat constructor. }
  assert (H : exists d, load_and_process_data to_numeric_dec zero_fs = Ok d)
    by (eexists; vm_compute; reflexivity).
  destruct H as [d H].
  destruct (empty_dataset_stops to_numeric_dec zero_fs d H) as [Hstop Hempty].
  specialize (Hempty _ _ _ Hr Hz). subst d. split; [apply Hstop; reflexivity|exact H].
Defined.

Lemma reshape_forward_filled_witness :
  reads_integers to_numeric_dec
  /\ reshape to_numeric_dec gap_frame
     = [ {| o_country := Some "A"%string; o_year := 1990%float;
            o_value := VInt 10 |};
         {| o_country := Some "A"%string; o_year := 1991%float;
            o_value := VInt 10 |};
         {| o_country := Some "A"%string; o_year := 1992%float;
            o_value := VInt 30 |} ]
  /\ In {| o_country := Some "Albania"%string; o_year := 1991%float;
           o_value := VStr "3.28M" |}
        (reshape to_numeric_dec pop_frame)
  /\ astype_int 1991%float = Ok 1991
  /\ List.length (reshape to_numeric_dec pop_frame) = 9%nat
  /\ NoDup (map okey (reshape to_numeric_dec pop_frame)).
Proof.
  split; [exact to_numeric_dec_reads_integers|].
  destruct (reshape_forward_filled to_numeric_dec pop_frame
              to_numeric_dec_reads_integers)
    as [Hgap [_ [_ [_ [_ [Hlen [_ [Hint [_ Hnd]]]]]]]]].
  split; [exact Hgap|].
  destruct (Hint 1%nat (mkrow "Albania" [VStr "3.29M"; VStr "3.28M"; VStr "3.25M"])
              1991) as [Hin Hy].
  - simpl. lia.
  - simpl. auto.
  - reflexivity.
  - lia.
  - split; [exact Hin|]. split; [exact Hy|]. split; [exact Hlen|].
    apply (Hnd [1990; 1991; 1992]).
    + reflexivity.
    + repeat constructor; lia.
    + repeat (constructor; [simpl; intuition lia|]). constructor.
    + repeat (constructor; [simpl; intuition discriminate|]). constructor.
Defined.

Lemma fill_crosses_country_column_witness :
  In {| o_country := Some "Albania"%string; o_year := 1990%float;
        o_value := VStr "Albania" |}
     (reshape to_numeric_dec blank_first_frame)
  /\ (exists x,
        In {| o_country := Some "Albania"%string; o_year := 1990%float;
              o_value := x |}
           (map_value (to_numeric to_numeric_dec)
                      (reshape to_numeric_dec blank_first_frame))
        /\ x = nan)
  /\ (exists P x y,
        apply_value parse_number (reshape to_numeric_dec blank_first_frame) = Ok P
        /\ In {| o_country := Some "Albania"%string; o_year := 1990%float;
                 o_value := x |} P
        /\ x = nan
        /\ In {| o_country := Some "12"%string; o_year := 1990%float;
                 o_value := y |} P
        /\ y = 12%float)
  /\ In {| o_country := None; o_year := 1990%float; o_value := VFloat nan |}
        (reshape to_numeric_dec
                 {| columns := ["1990"]%string;
                    rows := [{| country := None; cells := [VFloat nan] |}] |}).
Proof.
  destruct (fill_crosses_country_column to_numeric_dec blank_first_frame
              (mkrow "Albania" [VFloat nan; VStr "3.28M"]) "1990"
              ["1991"%string] (VFloat nan) [VStr "3.28M"])
    as [_ Ha]; try reflexivity; [simpl; auto|].
  destruct (fill_crosses_country_column to_numeric_dec blank_first_frame
              (mkrow "12" [VFloat nan; VStr "5M"]) "1990"
              ["1991"%string] (VFloat nan) [VStr "5M"])
    as [_ Hb]; try reflexivity; [simpl; auto|].
  destruct (fill_crosses_country_column to_numeric_dec
              {| columns := ["1990"]%string;
                 rows := [{| country := None; cells := [VFloat nan] |}] |}
              {| country := None; cells := [VFloat nan] |} "1990"
              [] (VFloat nan) [])
    as [Hc _]; try reflexivity; [simpl; auto|].
  destruct (Ha "Albania"%string eq_refl) as [Ha1 [[x [Ha2 [Ha3 _]]] Ha4]].
  destruct (Hb "12"%string eq_refl) as [_ [_ Hb4]].
  assert (HP : exists P,
             apply_value parse_number (reshape to_numeric_dec blank_first_frame)
             = Ok P) by (eexists; vm_compute; reflexivity).
  destruct HP as [P HP].
  destruct (Ha4 eq_refl eq_refl eq_refl P HP) as [xa [Hxa [Hna _]]].
  destruct (Hb4 eq_refl eq_refl eq_refl P HP) as [xb [Hxb [_ Hnb]]].
  split; [exact Ha1|]. split.
  - exists x. split; [exact Ha2|]. apply Ha3. reflexivity.
  - split.
    + exists P, xa, xb. split; [exact HP|]. split; [exact Hxa|].
      split; [apply Hna; reflexivity|]. split; [exact Hxb|].
      apply Hnb. reflexivity.
    + apply Hc. reflexivity.
Defined.

(** C10, as stated: both rows of the table have a blank first year cell and
    get their country name there, but the name 12 is read as the number 12
    by the parser and does not become missing again; and a row without a
    country name has no name to take: its blank first year cell stays
    missing. *)
Lemma filled_name_read_as_number :
  (forall r, In r (rows blank_first_frame) ->
             isna (nth 0 (cells r) (VFloat nan)) = true
             /\ nth 0 (cells (ffill_row r)) (VFloat nan) = country_cell (country r))
  /\ ~ (forall r, In r (rows blank_first_frame) ->
                  parse_number (nth 0 (cells (ffill_row r)) (VFloat nan)) = Ok nan)
  /\ ~ (forall r, In r (rows blank_first_frame) ->
                  to_numeric to_numeric_dec (nth 0 (cells (ffill_row r)) (VFloat nan))
                  = nan)
  /\ isna (nth 0 (cells (ffill_row {| country := None;
                                      cells := [VFloat nan; VStr "5M"] |}))
              (VFloat nan)) = true.
Proof.
  split; [|split; [|split; [|reflexivity]]].
  - intros r [<-|[<-|[]]]; split; reflexivity.
  - intros H. specialize (H (mkrow "12" [VFloat nan; VStr "5M"])).
    assert (E : Ok 12%float = Ok nan) by (apply H; simpl; auto).
    apply (f_equal (fun x => match x with Ok f => f | Raise _ => nan end)) in E.
    float_neq.
  - intros H. specialize (H (mkrow "12" [VFloat nan; VStr "5M"])).
    assert (E : 12%float = nan) by (apply H; simpl; auto).
    float_neq.
Qed.

(** The blank cell takes the name Denmark, which ends in k: the parser
    raises and the whole pipeline stops with the exception. *)
Example denmark_blank_raises :
  load_and_process_data to_numeric_dec denmark_fs = Raise ValueError
  /\ script to_numeric_dec denmark_fs = Crashed ValueError.
Proof. split; vm_compute; reflexivity. Qed.

Lemma complete_tables_nine_records_witness :
  exists d,
    load_and_process_data to_numeric_dec sample_fs = Ok d
    /\ List.length d = 9%nat
    /\ Forall (fun r =>
                 (0 <? population r)%float = true
                 /\ (0 <? life_expectancy r)%float = true
                 /\ (0 <? gni_per_capita r)%float = true
                 /\ In (m_year r) [1990; 1991; 1992]
                 /\ In (m_country r) (map Some three_countries)) d
    /\ NoDup (map (fun r => (m_country r, m_year r)) d).
Proof.
  apply (complete_tables_nine_records to_numeric_dec sample_fs
           pop_frame lex_frame gni_frame); try reflexivity.
  - split; [reflexivity|]. split; [apply Permutation_refl|].
    repeat constructor; eexists; (split; [vm_compute; reflexivity|reflexivity]).
  - split; [reflexivity|]. split.
    + simpl. apply Permutation_sym.
      apply (perm_trans (l' := [Some "Albania"; Some "Afghanistan"; Some "Algeria"]%string)).
      * apply perm_swap.
      * apply perm_skip, perm_swap.
    + repeat constructor; eexists; (split; [vm_compute; reflexivity|reflexivity]).
  - split; [reflexivity|]. split; [apply Permutation_refl|].
    repeat constructor; eexists; (split; [vm_compute; reflexivity|reflexivity]).
Defined.

(** * Further properties of the code *)

(** ** More on the number parser *)

Lemma chars_app (a b : string) : chars (a ++ b) = (chars a ++ chars b)%list.
Proof. induction a as [|c a IH]; simpl; [reflexivity|]. f_equal. exact IH. Qed.

Lemma str_chars (s : string) : str (chars s) = s.
Proof. apply string_of_list_ascii_of_string. Qed.

Lemma chars_str (l : list ascii) : chars (str l) = l.
Proof. apply list_ascii_of_string_of_list_ascii. Qed.

Lemma dropwhile_all (p : ascii -> bool) (l : list ascii) :
  forallb p l = true -> dropwhile p l = [].
Proof.
  induction l as [|c l IH]; simpl; [reflexivity|]. intros H.
  apply andb_prop in H. destruct H as [Hc Hl]. rewrite Hc. auto.
Qed.

Lemma dropwhile_prefix (p : ascii -> bool) (pre l : list ascii) :
  forallb p pre = true -> dropwhile p (pre ++ l)%list = dropwhile p l.
Proof.
  induction pre as [|c pre IH]; simpl; [reflexivity|]. intros H.
  apply andb_prop in H. destruct H as [Hc Hl]. rewrite Hc. auto.
Qed.

Lemma strip_with_padding (p : ascii -> bool) (pre l post : list ascii) :
  forallb p pre = true -> forallb p post = true ->
  strip_with p (pre ++ l ++ post)%list = strip_with p l.
Proof.
  intros Hpre Hpost. unfold strip_with. rewrite (dropwhile_prefix p pre) by assumption.
  f_equal. induction l as [|c l IH]; simpl.
  - rewrite (dropwhile_all p post) by assumption. reflexivity.
  - destruct (p c); [exact IH|].
    change (c :: (l ++ post)%list) with ((c :: l) ++ post)%list.
    rewrite rev_app_distr. apply dropwhile_prefix.
    rewrite forallb_forall in *. intros x Hx. apply Hpost. apply in_rev. assumption.
Qed.

Lemma strip_padding (pre s post : string) :
  forallb isspace (chars pre) = true -> forallb isspace (chars post) = true ->
  strip (pre ++ s ++ post) = strip s.
Proof.
  intros Hpre Hpost. unfold strip. rewrite !chars_app.
  rewrite strip_with_padding by assumption. reflexivity.
Qed.

Lemma strip_blank (s : string) :
  forallb isspace (chars s) = true -> strip s = ""%string.
Proof.
  intros H. unfold strip, strip_with. rewrite (dropwhile_all _ _ H). reflexivity.
Qed.

Lemma parse_number_blank (s : string) :
  strip s = ""%string -> parse_number (VStr s) = Ok nan.
Proof.
  intros H. unfold parse_number. simpl isna. simpl orb.
  destruct (String.eqb s ""); [reflexivity|]. rewrite H. reflexivity.
Qed.

Lemma parse_number_stripped (s : string) :
  s <> ""%string ->
  parse_number (VStr s)
  = let value := strip s in
    if endswith value "k" then
      x <- float_of_str (but_last value) ;; Ok (x * 1000)%float
    else if endswith value "M" then
      x <- float_of_str (but_last value) ;; Ok (x * 1000000)%float
    else if endswith value "B" then
      x <- float_of_str (but_last value) ;; Ok (x * 1000000000)%float
    else
      match float_of_str value with
      | Ok x => Ok x
      | Raise _ => Ok nan
      end.
Proof.
  intros H. unfold parse_number. simpl isna. simpl orb.
  destruct (String.eqb s "") eqn:E; [|reflexivity].
  apply String.eqb_eq in E. contradiction.
Qed.

(** X1: on a text [parse_number] raises exactly when the stripped text ends
    in k, M or B and [float] rejects what stands before the suffix; the
    exception is then a [ValueError]. In every other case it returns. *)
Theorem parse_number_raises_iff (s : string) (e : exn) :
  parse_number (VStr s) = Raise e <->
  e = ValueError
  /\ (endswith (strip s) "k" = true \/ endswith (strip s) "M" = true
      \/ endswith (strip s) "B" = true)
  /\ float_of_str (but_last (strip s)) = Raise ValueError.
Proof.
  assert (Hf : forall t, (exists x, float_of_str t = Ok x)
                         \/ float_of_str t = Raise ValueError).
  { intros t. unfold float_of_str. destruct (float_of_chars (chars t));
      [left; eexists; reflexivity | right; reflexivity]. }
  destruct (String.eqb s "") eqn:Es.
  - apply String.eqb_eq in Es. subst s. split.
    + vm_compute. discriminate.
    + intros [_ [H _]]. vm_compute in H. intuition discriminate.
  - assert (Hs : s <> ""%string) by (intros ->; discriminate).
    rewrite (parse_number_stripped s Hs). cbv zeta.
    destruct (endswith (strip s) "k") eqn:Ek;
      [|destruct (endswith (strip s) "M") eqn:EM;
        [|destruct (endswith (strip s) "B") eqn:EB]].
    1-3: destruct (Hf (but_last (strip s))) as [[x Hx]|Hx]; rewrite Hx; simpl;
      (split; [intros H; try discriminate H; injection H as <-; auto
              | intros [He [_ H]]; try discriminate H; subst e; reflexivity]).
    split.
    + destruct (float_of_str (strip s)); discriminate.
    + intros [_ [[H|[H|H]] _]]; discriminate H.
Qed.

(** X2: white space around a text does not change what [parse_number]
    returns for it. *)
Theorem parse_number_ignores_padding (pre s post : string) :
  forallb isspace (chars pre) = true -> forallb isspace (chars post) = true ->
  parse_number (VStr (pre ++ s ++ post)) = parse_number (VStr s).
Proof.
  intros Hpre Hpost.
  pose proof (strip_padding pre s post Hpre Hpost) as E.
  destruct (String.eqb s "") eqn:Es.
  - apply String.eqb_eq in Es. subst s.
    rewrite (parse_number_blank (pre ++ "" ++ post)); [reflexivity|].
    rewrite E. reflexivity.
  - assert (Hs : s <> ""%string) by (intros ->; discriminate).
    destruct (String.eqb (pre ++ s ++ post) "") eqn:Ep.
    + apply String.eqb_eq in Ep. exfalso. apply Hs.
      destruct pre; [|discriminate]. destruct s; [reflexivity|discriminate].
    + assert (Hp : (pre ++ s ++ post)%string <> ""%string) by (intros H; rewrite H in Ep; discriminate).
      rewrite (parse_number_stripped _ Hp), (parse_number_stripped _ Hs), E.
      reflexivity.
Qed.

Lemma endswith_snoc (t : string) (c c' : ascii) :
  endswith (t ++ String c "") c' = Ascii.eqb c c'.
Proof.
  unfold endswith. rewrite chars_app, rev_app_distr. reflexivity.
Qed.

Lemma but_last_snoc (t : string) (c : ascii) : but_last (t ++ String c "") = t.
Proof.
  unfold but_last. rewrite chars_app. simpl chars.
  rewrite removelast_last. apply str_chars.
Qed.

(** X3: when the text before the suffix is a number [x], the result is [x]
    times a thousand for k, a million for M and a billion for B. *)
Theorem parse_number_suffix_scales (s t : string) (x : float) :
  float_of_str t = Ok x ->
  (strip s = (t ++ "k")%string -> parse_number (VStr s) = Ok (x * 1000)%float)
  /\ (strip s = (t ++ "M")%string -> parse_number (VStr s) = Ok (x * 1000000)%float)
  /\ (strip s = (t ++ "B")%string -> parse_number (VStr s) = Ok (x * 1000000000)%float).
Proof.
  intros Hx.
  assert (Hs : forall c, strip s = (t ++ String c "")%string -> s <> ""%string).
  { intros c H ->. destruct t; discriminate. }
  repeat split; intros H; rewrite (parse_number_stripped s (Hs _ H)); cbv zeta;
    rewrite H, !endswith_snoc; simpl; rewrite ?but_last_snoc, ?Hx; reflexivity.
Qed.

(** ** Texts that [float] rejects by their last character *)

Lemma dropwhile_head (p : ascii -> bool) (l r : list ascii) (c : ascii) :
  dropwhile p l = c :: r -> p c = false.
Proof.
  induction l as [|a l IH]; simpl; [discriminate|].
  destruct (p a) eqn:E; [exact IH|]. intros H. injection H as <- _. exact E.
Qed.

Lemma strip_with_last (p : ascii -> bool) (l l' : list ascii) (c : ascii) :
  strip_with p l = (l' ++ [c])%list -> p c = false.
Proof.
  unfold strip_with. intros H.
  apply (f_equal (@rev ascii)) in H. rewrite rev_involutive, rev_app_distr in H.
  simpl in H. exact (dropwhile_head _ _ _ _ H).
Qed.

Lemma dropwhile_snoc (p : ascii -> bool) (l : list ascii) (c : ascii) :
  p c = false -> dropwhile p (l ++ [c])%list = (dropwhile p l ++ [c])%list.
Proof.
  intros Hc. induction l as [|a l IH]; simpl; [rewrite Hc; reflexivity|].
  destruct (p a); [exact IH|reflexivity].
Qed.

Lemma strip_with_snoc (p : ascii -> bool) (l : list ascii) (c : ascii) :
  p c = false -> strip_with p (l ++ [c])%list = (dropwhile p l ++ [c])%list.
Proof.
  intros Hc. unfold strip_with. rewrite dropwhile_snoc by assumption.
  rewrite rev_app_distr. simpl. rewrite Hc.
  change (c :: rev (dropwhile p l)) with (rev [c] ++ rev (dropwhile p l))%list.
  rewrite <- rev_app_distr, rev_involutive. reflexivity.
Qed.

Lemma float_isspace_isspace (c : ascii) : float_isspace c = true -> isspace c = true.
Proof.
  unfold float_isspace, isspace. generalize (code c). intros n.
  rewrite !orb_true_iff, !andb_true_iff, !Z.leb_le, !Z.eqb_eq. lia.
Qed.

Lemma drop_underscores_snoc (prev : option ascii) (l l1 : list ascii) (c : ascii) :
  drop_underscores prev (l ++ [c])%list = Some l1 ->
  exists l1', l1 = (l1' ++ [c])%list.
Proof.
  revert prev l1. induction l as [|a l IH]; intros prev l1; simpl.
  - destruct (Ascii.eqb c "_") eqn:Ec.
    + destruct (match prev with Some p => isdigit p | None => false end);
        discriminate.
    + destruct (match prev with Some p => Ascii.eqb p "_" | None => false end
                && negb (isdigit c)); [discriminate|].
      simpl. intros H. injection H as <-. exists []. reflexivity.
  - destruct (Ascii.eqb a "_").
    + destruct (match prev with Some p => isdigit p | None => false end);
        [apply IH|discriminate].
    + destruct (match prev with Some p => Ascii.eqb p "_" | None => false end
                && negb (isdigit a)); [discriminate|].
      destruct (drop_underscores (Some a) (l ++ [c])%list) as [l2|] eqn:E;
        [|discriminate].
      simpl. intros H. injection H as <-.
      destruct (IH _ _ E) as [l1' ->]. exists (a :: l1'). reflexivity.
Qed.

Lemma sign_snoc (l : list ascii) (c : ascii) :
  snd (sign (l ++ [c])%list) = []
  \/ exists l', snd (sign (l ++ [c])%list) = (l' ++ [c])%list.
Proof.
  destruct l as [|a l]; simpl.
  - destruct (Ascii.eqb c "-"); [left; reflexivity|].
    destruct (Ascii.eqb c "+"); [left; reflexivity|].
    right. exists []. reflexivity.
  - destruct (Ascii.eqb a "-"); [right; exists l; reflexivity|].
    destruct (Ascii.eqb a "+"); [right; exists l; reflexivity|].
    right. exists (a :: l). reflexivity.
Qed.

Lemma digits_snoc (acc n : Z) (l : list ascii) (c : ascii) :
  isdigit c = false ->
  exists r, snd (digits acc n (l ++ [c])%list) = (r ++ [c])%list.
Proof.
  intros Hc. revert acc n. induction l as [|a l IH]; intros acc n; simpl.
  - rewrite Hc. exists []. reflexivity.
  - destruct (isdigit a); [apply IH|]. exists (a :: l). reflexivity.
Qed.

Lemma snoc_cons_inv {A : Type} (l : list A) (c a : A) (r : list A) :
  (l ++ [c])%list = a :: r -> (r = [] /\ a = c) \/ exists r', r = (r' ++ [c])%list.
Proof.
  destruct l as [|b l]; simpl; intros H; injection H as <- <-.
  - left. auto.
  - right. exists l. reflexivity.
Qed.

(** A text whose last character is no digit and no point is not read to its
    end as a decimal number. *)
Lemma decimal_snoc (l : list ascii) (c : ascii) :
  isdigit c = false -> Ascii.eqb c "." = false ->
  decimal (l ++ [c])%list = None
  \/ exists m e a r, decimal (l ++ [c])%list = Some (m, e, a :: r).
Proof.
  intros Hd Hp. unfold decimal.
  destruct (digits_snoc 0 0 l c Hd) as [r1' Hr1].
  destruct (digits 0 0 (l ++ [c])%list) as [[m1 n1] r1]. simpl in Hr1. subst r1.
  assert (H2 : exists m2 n2 r2',
             match (r1' ++ [c])%list with
             | ch :: r => if Ascii.eqb ch "." then digits m1 0 r
                          else (m1, 0, (r1' ++ [c])%list)
             | [] => (m1, 0, (r1' ++ [c])%list)
             end = (m2, n2, (r2' ++ [c])%list)).
  { destruct r1' as [|ch r]; simpl.
    - rewrite Hp. exists m1, 0, []. reflexivity.
    - destruct (Ascii.eqb ch ".").
      + destruct (digits_snoc m1 0 r c Hd) as [r2' Hr2].
        destruct (digits m1 0 (r ++ [c])%list) as [[m2 n2] r2]. simpl in Hr2.
        subst r2. exists m2, n2, r2'. reflexivity.
      + exists m1, 0, (ch :: r). reflexivity. }
  destruct H2 as [m2 [n2 [r2' ->]]].
  destruct (n1 + n2 =? 0); [left; reflexivity|]. right.
  destruct (r2' ++ [c])%list as [|ch r3] eqn:E; [destruct r2'; discriminate|].
  destruct (Ascii.eqb ch "e" || Ascii.eqb ch "E"); [|eauto].
  destruct (sign r3) as [neg r4] eqn:Es.
  destruct (digits 0 0 r4) as [[ex nx] r5] eqn:Ed.
  destruct (nx =? 0) eqn:Enx; [eauto|].
  enough (exists a r, r5 = a :: r) as [a [r ->]] by eauto.
  apply snoc_cons_inv in E. destruct E as [[-> _]|[r3' ->]].
  - simpl in Es. injection Es as <- <-. simpl in Ed. injection Ed as <- <- <-.
    discriminate.
  - destruct (sign_snoc r3' c) as [H|[r4' H]]; rewrite Es in H; simpl in H; subst r4.
    + simpl in Ed. injection Ed as <- <- <-. discriminate.
    + destruct (digits_snoc 0 0 r4' c Hd) as [r5' Hr5]. rewrite Ed in Hr5.
      simpl in Hr5. subst r5. destruct r5'; simpl; eauto.
Qed.

Lemma inf_or_nan_snoc (neg : bool) (l : list ascii) (c : ascii) :
  Ascii.eqb (lower c) "f" = false -> Ascii.eqb (lower c) "n" = false ->
  Ascii.eqb (lower c) "y" = false ->
  inf_or_nan neg (l ++ [c])%list = None.
Proof.
  intros Hf Hn Hy. unfold inf_or_nan.
  assert (H : forall w : string,
             String.eqb (str (map lower (l ++ [c])%list)) w = true ->
             exists w', chars w = (w' ++ [lower c])%list).
  { intros w E. apply String.eqb_eq in E. subst w. rewrite chars_str, map_app.
    eexists. reflexivity. }
  assert (Hlast : forall (w w' : list ascii) (a b : ascii),
             (w ++ [a])%list = (w' ++ [b])%list -> a = b).
  { intros w w' a b E. apply app_inj_tail in E. tauto. }
  destruct (String.eqb _ "inf") eqn:E1.
  - destruct (H _ E1) as [w' Hw]. apply (Hlast ["i"; "n"]%char) in Hw.
    rewrite <- Hw in Hf. discriminate.
  - destruct (String.eqb _ "infinity") eqn:E2.
    + destruct (H _ E2) as [w' Hw].
      apply (Hlast ["i"; "n"; "f"; "i"; "n"; "i"; "t"]%char) in Hw.
      rewrite <- Hw in Hy. discriminate.
    + simpl. destruct (String.eqb _ "nan") eqn:E3; [|reflexivity].
      destruct (H _ E3) as [w' Hw]. apply (Hlast ["n"; "a"]%char) in Hw.
      rewrite <- Hw in Hn. discriminate.
Qed.

Lemma float_of_chars_last (l : list ascii) (c : ascii) :
  float_isspace c = false -> literal_end c = false ->
  float_of_chars (l ++ [c])%list = None.
Proof.
  intros Hs He. unfold literal_end in He.
  rewrite !orb_false_iff in He. destruct He as [[[[Hd Hp] Hf] Hn] Hy].
  unfold float_of_chars. rewrite strip_with_snoc by assumption.
  destruct (drop_underscores None (dropwhile float_isspace l ++ [c])%list)
    as [l1|] eqn:E1; [|reflexivity].
  apply drop_underscores_snoc in E1. destruct E1 as [l1' ->].
  destruct (sign (l1' ++ [c])%list) as [neg l2] eqn:Es.
  destruct (sign_snoc l1' c) as [H|[l2' H]]; rewrite Es in H; simpl in H; subst l2.
  - reflexivity.
  - destruct (decimal_snoc l2' c Hd Hp) as [-> | [m [e [a [r ->]]]]].
    + apply inf_or_nan_snoc; assumption.
    + reflexivity.
Qed.

(** X4: a text whose last character after [strip] is none of the suffixes
    k, M, B and cannot end a number (an upper-case K, a lower-case m, a
    percent sign, a comma, ...) gives the missing value. *)
Theorem parse_number_unknown_suffix (s t : string) (c : ascii) :
  strip s = (t ++ String c "")%string ->
  literal_end c = false ->
  c <> "k"%char -> c <> "M"%char -> c <> "B"%char ->
  parse_number (VStr s) = Ok nan.
Proof.
  intros Hs He Hk HM HB.
  assert (Hne : s <> ""%string) by (intros ->; destruct t; discriminate).
  rewrite (parse_number_stripped s Hne). cbv zeta. rewrite Hs, !endswith_snoc.
  rewrite (proj2 (Ascii.eqb_neq _ _) Hk), (proj2 (Ascii.eqb_neq _ _) HM),
    (proj2 (Ascii.eqb_neq _ _) HB).
  unfold float_of_str. rewrite chars_app. simpl chars.
  rewrite float_of_chars_last; [reflexivity| |assumption].
  destruct (float_isspace c) eqn:E; [|reflexivity].
  apply float_isspace_isspace in E.
  assert (Hc : isspace c = false).
  { apply (strip_with_last isspace (chars s) (chars t)).
    apply (f_equal chars) in Hs. unfold strip in Hs.
    rewrite chars_str, chars_app in Hs. exact Hs. }
  congruence.
Qed.

(** ** More on the forward fill *)

Lemma ffill_cells_length (last : option value) (l : list value) :
  List.length (ffill_cells last l) = List.length l.
Proof.
  revert last. induction l as [|v l IH]; intros last; simpl; [reflexivity|].
  destruct (isna v); [destruct last|]; simpl; rewrite IH; reflexivity.
Qed.

Lemma ffill_cells_present (last : option value) (l : list value) (j : nat) :
  isna (nth j l (VFloat nan)) = false ->
  nth j (ffill_cells last l) (VFloat nan) = nth j l (VFloat nan).
Proof.
  revert last j. induction l as [|v l IH]; intros last j; simpl.
  - destruct j; reflexivity.
  - destruct j as [|j].
    + intros H. rewrite H. reflexivity.
    + intros H. destruct (isna v); [destruct last|]; simpl; apply IH; assumption.
Qed.

Lemma ffill_cells_filled (w : value) (l : list value) :
  isna w = false ->
  Forall (fun v => isna v = false) (ffill_cells (Some w) l).
Proof.
  revert w. induction l as [|v l IH]; intros w Hw; simpl; [constructor|].
  destruct (isna v) eqn:E; constructor; auto.
Qed.

Lemma ffill_row_tail (r : row) :
  cells (ffill_row r)
  = ffill_cells (match country r with Some c => Some (VStr c) | None => None end)
                (cells r).
Proof. unfold ffill_row. simpl. destruct (country r); reflexivity. Qed.

(** X5: the fill keeps the country, the length of the row and every cell
    that was present. *)
Theorem ffill_keeps_present_cells (r : row) :
  country (ffill_row r) = country r
  /\ List.length (cells (ffill_row r)) = List.length (cells r)
  /\ forall j, isna (nth j (cells r) (VFloat nan)) = false ->
               nth j (cells (ffill_row r)) (VFloat nan)
               = nth j (cells r) (VFloat nan).
Proof.
  split; [reflexivity|]. rewrite ffill_row_tail. split.
  - apply ffill_cells_length.
  - intros j. apply ffill_cells_present.
Qed.

(** X6: a row with a country name has no missing cell after the fill: a blank
    before the first value takes the name itself. *)
Theorem ffill_named_row_complete (r : row) (c : string) :
  country r = Some c ->
  Forall (fun v => isna v = false) (cells (ffill_row r))
  /\ forall j, (j < List.length (cells r))%nat ->
       Forall (fun v => isna v = true) (firstn (S j) (cells r)) ->
       nth j (cells (ffill_row r)) (VFloat nan) = VStr c.
Proof.
  intros Hc. rewrite ffill_row_tail, Hc. split.
  - apply ffill_cells_filled. reflexivity.
  - generalize (cells r) as l. intros l j. revert l.
    induction j as [|j IH]; intros [|v l] Hj Hall; simpl in Hj; try lia.
    + inversion Hall as [|? ? Hv _]; subst. simpl. rewrite Hv. reflexivity.
    + simpl firstn in Hall. inversion Hall as [|? ? Hv Hrest]; subst.
      simpl. rewrite Hv. simpl. apply IH; [lia|assumption].
Qed.

(** ** Where the pipeline can fail *)

Lemma mapM_raise {A B : Type} (f : A -> result B) (l : list A) (e : exn) :
  mapM f l = Raise e -> exists a, In a l /\ f a = Raise e.
Proof.
  induction l as [|a l IH]; simpl; [discriminate|].
  destruct (f a) as [b|e'] eqn:Ea; simpl.
  - destruct (mapM f l) as [bs|e'']; simpl; [discriminate|].
    intros H. destruct (IH H) as [a' [Ha' Hf]]. exists a'. auto.
  - intros H. injection H as <-. exists a. auto.
Qed.

Lemma apply_value_raise {Y : Type} (l : list (obs Y value)) (e : exn) :
  apply_value parse_number l = Raise e ->
  exists o, In o l /\ parse_number (o_value o) = Raise e.
Proof.
  unfold apply_value. intros H. apply mapM_raise in H.
  destruct H as [o [Ho H]]. exists o. split; [assumption|].
  destruct (parse_number (o_value o)); [discriminate|].
  simpl in H. injection H as <-. reflexivity.

Qed.

Lemma parse_number_exn (v : value) (e : exn) :
  parse_number v = Raise e -> e = ValueError \/ e = OverflowError.
Proof.
  unfold parse_number.
  destruct (isna v || match v with VStr s => String.eqb s "" | _ => false end);
    [discriminate|].
  destruct v as [z|f|s].
  - unfold float_of_int.
    destruct (binary_normalize prec emax z 0 false); try discriminate.
    intros H. injection H as <-. auto.
  - discriminate.
  - assert (Hf : forall t (k : float -> float),
               (x <- float_of_str t ;; Ok (k x)) = Raise e -> e = ValueError).
    { intros t k. unfold float_of_str. destruct (float_of_chars (chars t)); simpl;
        [discriminate|]. intros H. injection H as <-. reflexivity. }
    destruct (endswith (strip s) "k"); [intros H; left; exact (Hf _ _ H)|].
    destruct (endswith (strip s) "M"); [intros H; left; exact (Hf _ _ H)|].
    destruct (endswith (strip s) "B"); [intros H; left; exact (Hf _ _ H)|].
    destruct (float_of_str (strip s)); discriminate.
Qed.

(** After the year filter the joins, dropna, the positivity filter and the
    integer conversion always go through. *)
Lemma validate_total (P L G : list (obs float float)) :
  exists d, validate (align (restrict_years P) (restrict_years L)
                            (restrict_years G)) = Ok d.
Proof.
  unfold validate. apply mapM_total. apply Forall_forall. intros m Hm.
  apply filter_In in Hm. destruct Hm as [Hm _].
  apply filter_In in Hm. destruct Hm as [Hm _].
  apply align_In in Hm.
  destruct Hm as [p [l [g [_ [_ [_ [Yp [_ [_ [_ [_ ->]]]]]]]]]]].
  apply in_years_bounds in Yp. destruct Yp as [Ha Hb].
  destruct (astype_int_year _ Ha Hb) as [n [Hn _]].
  unfold year_to_int. simpl. rewrite Hn. simpl. eexists; reflexivity.
Qed.

Section Failures.

Variable to_numeric_str : string -> float.

Lemma process_raise (pf lf gf : frame) (e : exn) :
  process to_numeric_str pf lf gf = Raise e ->
  (e = ValueError \/ e = OverflowError)
  /\ exists o, In o (reshape to_numeric_str pf ++ reshape to_numeric_str gf)
               /\ parse_number (o_value o) = Raise e.
Proof.
  intros H. unfold process in H.
  destruct (apply_value parse_number (reshape to_numeric_str pf)) as [P|e1] eqn:HP.
  - destruct (apply_value parse_number (reshape to_numeric_str gf)) as [G|e2] eqn:HG.
    + simpl in H.
      destruct (validate_total P
                  (map_value (to_numeric to_numeric_str) (reshape to_numeric_str lf)) G)
        as [d Hd].
      rewrite Hd in H. discriminate.
    + simpl in H. injection H as <-.
      apply apply_value_raise in HG. destruct HG as [o [Ho Hr]].
      split; [exact (parse_number_exn _ _ Hr)|].
      exists o. split; [apply in_or_app; right; assumption|assumption].
  - simpl in H. injection H as <-.
    apply apply_value_raise in HP. destruct HP as [o [Ho Hr]].
    split; [exact (parse_number_exn _ _ Hr)|].
    exists o. split; [apply in_or_app; left; assumption|assumption].
Qed.

(** X8: the directory is chosen by data/pop.csv alone and all three tables
    are read from it: the load fails with [FileNotFoundError] exactly when
    one of the three files is not in that directory, whatever the other
    directory holds. *)
Theorem load_file_not_found (fs : filesystem) :
  load_and_process_data to_numeric_str fs = Raise FileNotFoundError <->
  (if exists_path fs "data/pop.csv"
   then fs "data/lex.csv"%string = None \/ fs "data/ny_gnp.csv"%string = None
   else fs "app/data/pop.csv"%string = None \/ fs "app/data/lex.csv"%string = None
        \/ fs "app/data/ny_gnp.csv"%string = None).
Proof.
  assert (Hp : forall pf lf gf,
             process to_numeric_str pf lf gf <> Raise FileNotFoundError).
  { intros pf lf gf H.
    apply process_raise in H.
    destruct H as [[H|H] _]; discriminate. }
  unfold load_and_process_data, read_inputs, exists_path, read_csv.
  destruct (fs "data/pop.csv"%string) as [pf|] eqn:E0; simpl String.append.
  - rewrite E0. simpl.
    destruct (fs "data/lex.csv"%string) as [lf|]; simpl;
      [|split; auto].
    destruct (fs "data/ny_gnp.csv"%string) as [gf|]; simpl;
      [|split; auto].
    split; [intros H; elim (Hp _ _ _ H)|intros [H|H]; discriminate].
  - destruct (fs "app/data/pop.csv"%string) as [pf|]; simpl; [|split; auto].
    destruct (fs "app/data/lex.csv"%string) as [lf|]; simpl; [|split; auto].
    destruct (fs "app/data/ny_gnp.csv"%string) as [gf|]; simpl; [|split; auto].
    split; [intros H; elim (Hp _ _ _ H)|intros [H|[H|H]]; discriminate].
Qed.

End Failures.

(** ** The year filter and the joins *)

Lemma filter_map_const {A B : Type} (h : B -> bool) (f : A -> B) (l : list A) (b : bool) :
  (forall a, In a l -> h (f a) = b) ->
  filter h (map f l) = if b then map f l else [].
Proof.
  induction l as [|a l IH]; intros H; simpl; [destruct b; reflexivity|].
  rewrite (H a (or_introl eq_refl)), IH by (intros; apply H; right; assumption).
  destruct b; reflexivity.
Qed.

Lemma filter_filter_implied {A : Type} (m g : A -> bool) (l : list A) :
  (forall a, In a l -> m a = true -> g a = true) ->
  filter m (filter g l) = filter m l.
Proof.
  induction l as [|a l IH]; intros H; simpl; [reflexivity|].
  destruct (g a) eqn:Eg; simpl.
  - rewrite IH by (intros; apply H; [right|]; assumption). reflexivity.
  - destruct (m a) eqn:Em.
    + rewrite (H a (or_introl eq_refl) Em) in Eg. discriminate.
    + apply IH. intros; apply H; [right|]; assumption.
Qed.

(** A filter on the left rows that every match on the right shares can be
    moved behind the join. *)
Lemma merge_filter {L R O : Type} (lkey : L -> key) (rkey : R -> key)
  (mk : L -> R -> O) (f : L -> bool) (g : R -> bool) (h : O -> bool)
  (left : list L) (right : list R) :
  (forall l r, h (mk l r) = f l) ->
  (forall l r, f l = true -> key_eqb (lkey l) (rkey r) = true -> g r = true) ->
  merge lkey rkey mk (filter f left) (filter g right)
  = filter h (merge lkey rkey mk left right).
Proof.
  intros Hh Hg. unfold merge. induction left as [|l left IH]; simpl; [reflexivity|].
  rewrite filter_app, <- IH.
  rewrite (filter_map_const h (mk l) _ (f l)) by (intros; apply Hh).
  destruct (f l) eqn:Ef; simpl; [|reflexivity].
  rewrite filter_filter_implied by (intros r _; apply Hg; assumption).
  reflexivity.
Qed.

Lemma key_match_in_years {V W : Type} (p : obs float V) (l : obs float W) :
  year_in_range p = true -> key_eqb (okey p) (okey l) = true ->
  year_in_range l = true.
Proof.
  intros Hp Hk. unfold key_eqb in Hk. apply andb_prop in Hk. destruct Hk as [_ Hy].
  unfold year_in_range in *. pose proof (in_years_bounds _ Hp) as [Ha Hb].
  simpl in Hy. rewrite <- (year_eqb_eq _ _ Ha Hb Hy). assumption.
Qed.

(** X9: restricting the three tidy tables to 1990-2023 before the joins
    gives the same table as joining first and restricting the result. *)
Theorem year_filter_commutes_with_join (P L G : list (obs float float)) :
  align (restrict_years P) (restrict_years L) (restrict_years G)
  = filter (fun m => in_years (m_year m)) (align P L G).
Proof.
  unfold align, restrict_years.
  rewrite (merge_filter okey okey _ year_in_range year_in_range year_in_range).
  - apply merge_filter.
    + reflexivity.
    + intros m g. apply key_match_in_years.
  - reflexivity.
  - intros p l. apply key_match_in_years.
Qed.

(** ** The controls *)

Lemma firstn_In {A : Type} (n : nat) (l : list A) (x : A) :
  In x (firstn n l) -> In x l.
Proof.
  intros H. rewrite <- (firstn_skipn n l). apply in_or_app. left. assumption.
Qed.

Lemma NoDup_firstn {A : Type} (n : nat) (l : list A) : NoDup l -> NoDup (firstn n l).
Proof.
  intros H. rewrite <- (firstn_skipn n l) in H. apply NoDup_app_remove_r in H.
  assumption.
Qed.

Lemma firstn_nonempty {A : Type} (n : nat) (l : list A) :
  l <> [] -> firstn (S n) l <> [].
Proof. destruct l; [contradiction|discriminate]. Qed.

Lemma fold_min_spec (l : list Z) (x : Z) :
  In (fold_left Z.min l x) (x :: l)
  /\ forall y, In y (x :: l) -> fold_left Z.min l x <= y.
Proof.
  revert x. induction l as [|a l IH]; intros x; simpl.
  - split; [auto|]. intros y [<-|[]]. lia.
  - destruct (IH (Z.min x a)) as [Hin Hle]. split.
    + destruct Hin as [Hin|Hin]; [|auto].
      rewrite <- Hin. destruct (Z.min_spec x a) as [[_ ->]|[_ ->]]; auto.
    + intros y [<-|[<-|Hy]].
      * specialize (Hle (Z.min x a) (or_introl eq_refl)). lia.
      * specialize (Hle (Z.min x a) (or_introl eq_refl)). lia.
      * apply Hle. right. assumption.
Qed.

Lemma fold_max_spec (l : list Z) (x : Z) :
  In (fold_left Z.max l x) (x :: l)
  /\ forall y, In y (x :: l) -> y <= fold_left Z.max l x.
Proof.
  revert x. induction l as [|a l IH]; intros x; simpl.
  - split; [auto|]. intros y [<-|[]]. lia.
  - destruct (IH (Z.max x a)) as [Hin Hle]. split.
    + destruct Hin as [Hin|Hin]; [|auto].
      rewrite <- Hin. destruct (Z.max_spec x a) as [[_ ->]|[_ ->]]; auto.
    + intros y [<-|[<-|Hy]].
      * specialize (Hle (Z.max x a) (or_introl eq_refl)). lia.
      * specialize (Hle (Z.max x a) (or_introl eq_refl)). lia.
      * apply Hle. right. assumption.
Qed.

Lemma contains_In (countries : list (option string)) (c : string) :
  contains countries c = true <-> In (Some c) countries.
Proof.
  unfold contains. rewrite existsb_exists. split.
  - intros [x [Hx E]]. apply country_eqb_eq in E. subst x. assumption.
  - intros H. exists (Some c). split; [assumption|apply country_eqb_refl].
Qed.

Lemma major_countries_NoDup : NoDup major_countries.
Proof.
  unfold major_countries.
  repeat (constructor; [simpl; intuition discriminate|]). constructor.
Qed.

(** The start selection on any list of options. *)
Lemma default_countries_spec (countries : list (option string)) :
  (forall c, In c (default_countries countries) -> In c countries)
  /\ (List.length (default_countries countries) <= 8)%nat
  /\ (countries <> [] -> default_countries countries <> [])
  /\ (NoDup countries -> NoDup (default_countries countries))
  /\ (forall c, In (Some c) countries -> In c major_countries ->
      forall d, In d (default_countries countries) ->
                exists m, d = Some m /\ In m major_countries).
Proof.
  unfold default_countries, available_major_countries.
  destruct (filter (contains countries) major_countries) as [|m ms] eqn:E.
  - simpl map. cbv iota. split; [|split; [|split; [|split]]].
    + intros c Hc. apply firstn_In in Hc. apply firstn_In in Hc. assumption.
    + apply firstn_le_length.
    + intros H. apply firstn_nonempty.
      destruct countries; [contradiction|discriminate].
    + intros H. apply NoDup_firstn, NoDup_firstn. assumption.
    + intros c Hc Hm. exfalso.
      assert (Hin : In c (filter (contains countries) major_countries)).
      { apply filter_In. split; [assumption|]. apply contains_In. assumption. }
      rewrite E in Hin. exact Hin.
  - assert (Hsub : forall d, In d (map Some (m :: ms)) ->
                     exists c, d = Some c /\ In c major_countries
                               /\ In (Some c) countries).
    { intros d Hd. apply in_map_iff in Hd. destruct Hd as [c [<- Hc]].
      rewrite <- E in Hc. apply filter_In in Hc. destruct Hc as [Hc1 Hc2].
      exists c. split; [reflexivity|]. split; [assumption|].
      apply contains_In. assumption. }
    change (match map Some (m :: ms) with
            | [] => firstn 10 countries
            | o :: l => o :: l
            end) with (map Some (m :: ms)).
    split; [|split; [|split; [|split]]].
    + intros c Hc. apply firstn_In in Hc.
      destruct (Hsub c Hc) as [c' [-> [_ H]]]. assumption.
    + apply firstn_le_length.
    + intros _. discriminate.
    + intros _. apply NoDup_firstn. apply NoDup_map_Some.
      rewrite <- E. apply NoDup_filter. apply major_countries_NoDup.
    + intros c _ _ d Hd. apply firstn_In in Hd.
      destruct (Hsub d Hd) as [c' [-> [H _]]]. exists c'. auto.
Qed.

Section Controls.

Variable to_numeric_str : string -> float.

Lemma final_year_range (fs : filesystem) (d : list (merged Z)) :
  load_and_process_data to_numeric_str fs = Ok d ->
  Forall (fun r => 1990 <= m_year r <= 2023) d.
Proof.
  intros H. apply load_inv in H. destruct H as [pf [lf [gf [_ H]]]].
  apply final_record_origin in H. destruct H as [P [G [_ [_ H]]]].
  apply Forall_forall. intros r Hr.
  destruct (H r Hr) as [p [l [g (_ & _ & _ & Yp & _ & _ & _ & _ & _ & Hy & _)]]].
  apply in_years_bounds in Yp. destruct Yp as [Ya Yb].
  destruct (astype_int_year _ Ya Yb) as [n [Hn Hrange]].
  assert (m_year r = n) by congruence. subst n. assumption.
Qed.

Lemma final_gni_positive (fs : filesystem) (d : list (merged Z)) :
  load_and_process_data to_numeric_str fs = Ok d ->
  Forall (fun r => (0 <? gni_per_capita r)%float = true) d.
Proof.
  intros H. apply load_inv in H. destruct H as [pf [lf [gf [_ H]]]].
  apply final_record_origin in H. destruct H as [P [G [_ [_ H]]]].
  apply Forall_forall. intros r Hr.
  destruct (H r Hr) as [p [l [g (_ & _ & _ & _ & _ & _ & _ & _ & _ & _
                                  & _ & _ & Hgni & _ & Hpos)]]].
  unfold all_positive in Hpos. simpl in Hpos.
  apply andb_prop in Hpos. destruct Hpos as [_ P3]. rewrite Hgni. assumption.
Qed.

(** The sorted names of a dataset whose countries are all present. *)
Lemma countries_ok (d : list (merged Z)) :
  Forall (fun r => m_country r <> None) d ->
  exists cs, countries d = Ok cs
             /\ NoDup cs
             /\ forall c, In c cs <-> In c (map m_country d).
Proof.
  intros Hinv.
  assert (Hsome : Forall (fun o : option string => o <> None)
                         (unique country_eqb (map m_country d))).
  { apply Forall_forall. intros o Ho.
    rewrite (unique_In country_eqb country_eqb_iff) in Ho.
    apply in_map_iff in Ho. destruct Ho as [r [<- Hr]].
    rewrite Forall_forall in Hinv. apply (Hinv r Hr). }
  destruct (somes_Forall _ Hsome) as [names Hnames].
  unfold countries, sorted_countries. rewrite Hnames.
  eexists. split; [reflexivity|].
  apply somes_map in Hnames.
  assert (Hperm : Permutation (map Some (sorted_by String.leb names))
                              (unique country_eqb (map m_country d))).
  { rewrite Hnames. apply Permutation_map. apply sorted_by_perm. }
  split.
  - apply (Permutation_NoDup (Permutation_sym Hperm)).
    apply (unique_NoDup country_eqb country_eqb_iff).
  - intros c. rewrite <- (unique_In country_eqb country_eqb_iff (map m_country d) c). split.
    + apply (Permutation_in _ Hperm).
    + apply (Permutation_in _ (Permutation_sym Hperm)).
Qed.

Lemma dashboard_inv (fs : filesystem) (data : list (merged Z)) (ys : list Z)
  (cs : list (option string)) :
  script to_numeric_str fs = Dashboard data ys cs ->
  load_and_process_data to_numeric_str fs = Ok data
  /\ data <> [] /\ ys = years data /\ countries data = Ok cs.
Proof.
  unfold script.
  destruct (load_and_process_data to_numeric_str fs) as [d|e]; [|discriminate].
  destruct d as [|r d]; [discriminate|]. simpl Nat.eqb. cbv iota.
  destruct (countries (r :: d)) as [cs'|e] eqn:Hcs; [|discriminate].
  intros H. injection H as <- <- <-.
  split; [reflexivity|]. split; [discriminate|]. split; [reflexivity|exact Hcs].
Qed.

Lemma years_In (data : list (merged Z)) (y : Z) :
  In y (years data) <-> In y (map m_year data).
Proof.
  unfold years. rewrite <- (unique_In Z.eqb Z.eqb_eq (map m_year data)).
  split; apply Permutation_in;
    [apply sorted_by_perm | apply Permutation_sym, sorted_by_perm].
Qed.

(** The arguments of the slider on the years of a dataset that is not
    empty: the smallest and the largest year of the data. *)
Lemma year_slider_cases (data : list (merged Z)) :
  data <> [] ->
  exists lo hi,
    (exists r, In r data /\ m_year r = lo)
    /\ (exists r, In r data /\ m_year r = hi)
    /\ (forall r, In r data -> lo <= m_year r <= hi)
    /\ year_slider (years data)
       = if lo <? hi
         then SliderSet {| min_value := lo; max_value := hi; start_value := hi |}
         else SliderRefused lo hi.
Proof.
  intros Hne.
  destruct (years data) as [|y ys] eqn:Ey.
  - exfalso. destruct data as [|r data]; [contradiction|].
    assert (Hin : In (m_year r) (years (r :: data)))
      by (apply years_In; left; reflexivity).
    rewrite Ey in Hin. exact Hin.
  - unfold year_slider. simpl.
    destruct (fold_min_spec ys y) as [Hmin Hle], (fold_max_spec ys y) as [Hmax Hge].
    exists (fold_left Z.min ys y), (fold_left Z.max ys y).
    rewrite <- Ey in Hmin, Hmax. apply years_In in Hmin, Hmax.
    apply in_map_iff in Hmin, Hmax.
    destruct Hmin as [r1 [E1 Hr1]], Hmax as [r2 [E2 Hr2]].
    split; [exists r1; auto|]. split; [exists r2; auto|].
    split; [|reflexivity].
    intros r Hr.
    assert (Hin : In (m_year r) (y :: ys))
      by (rewrite <- Ey; apply years_In; apply in_map; assumption).
    split; [apply Hle | apply Hge]; assumption.
Qed.

(** X10: lines 122 to 143 end with an exception of Python exactly when the
    pipeline raised it and stop with the message exactly when the dataset is
    empty: sorting the names and taking the smallest and the largest year
    never raise. On a dataset that is not empty the year slider decides:
    when all the records have the same year the call of the slider is
    refused and the page is not built; when two records differ in their year
    the slider is set and the script goes on. *)
Theorem page_outcomes (fs : filesystem) :
  (forall e, open_page to_numeric_str fs = PageCrashed e
             <-> load_and_process_data to_numeric_str fs = Raise e)
  /\ (forall msg, open_page to_numeric_str fs = PageStopped msg
                  <-> load_and_process_data to_numeric_str fs = Ok []
                      /\ msg = "No data available after processing!"%string)
  /\ (forall data, load_and_process_data to_numeric_str fs = Ok data ->
                   data <> [] ->
      ((forall r1 r2, In r1 data -> In r2 data -> m_year r1 = m_year r2) ->
       exists y, open_page to_numeric_str fs = PageSliderRefused y y
                 /\ forall r, In r data -> m_year r = y)
      /\ (forall r1 r2, In r1 data -> In r2 data -> m_year r1 <> m_year r2 ->
          exists cs s,
            open_page to_numeric_str fs = PageControls data (years data) cs s
            /\ countries data = Ok cs
            /\ min_value s < max_value s /\ start_value s = max_value s)).
Proof.
  unfold open_page, script.
  destruct (load_and_process_data to_numeric_str fs) as [d|e0] eqn:Hload.
  - destruct (countries_ok d (final_country_present _ _ _ Hload)) as [cs [Hcs _]].
    rewrite Hcs. destruct d as [|r0 d]; simpl Nat.eqb; cbv iota.
    + split; [|split].
      * intros e. split; discriminate.
      * intros msg. split.
        -- intros H. injection H as <-. auto.
        -- intros [_ ->]. reflexivity.
      * intros data H Hne. injection H as <-. contradiction.
    + assert (Hne : r0 :: d <> []) by discriminate.
      destruct (year_slider_cases (r0 :: d) Hne)
        as [lo [hi [[r1 [Hr1 E1]] [[r2 [Hr2 E2]] [Hall Hs]]]]].
      rewrite Hs. split; [|split].
      * intros e. split; [|discriminate].
        destruct (lo <? hi); discriminate.
      * intros msg. split; [destruct (lo <? hi); discriminate|].
        intros [H _]. discriminate.
      * intros data H _. injection H as <-. split.
        -- intros Hsame.
           assert (Elh : lo = hi) by (rewrite <- E1, <- E2; apply Hsame; assumption).
           rewrite <- Elh. rewrite Z.ltb_irrefl. exists lo. split; [reflexivity|].
           intros r Hr. rewrite <- E1. apply Hsame; assumption.
        -- intros ra rb Ha Hb Hdiff.
           pose proof (Hall ra Ha). pose proof (Hall rb Hb).
           assert (Hlt : lo < hi) by lia.
           apply Z.ltb_lt in Hlt. rewrite Hlt.
           exists cs, {| min_value := lo; max_value := hi; start_value := hi |}.
           apply Z.ltb_lt in Hlt. simpl. auto.
  - split; [|split].
    + intros e. split; intros H; injection H as <-; reflexivity.
    + intros msg. split; [discriminate|]. intros [H _]. discriminate.
    + intros data H. discriminate.
Qed.

(** X11: on the years of the data the arguments of the year slider do not
    raise and are the smallest and the largest year of the data, between
    1990 and 2023. When the data has two different years the slider is set
    with these bounds and starts on the largest year, and every record lies
    between them; when all the records have the same year both bounds are
    that year and the call is refused. *)
Theorem year_slider_bounds (fs : filesystem) (data : list (merged Z))
  (ys : list Z) (cs : list (option string)) :
  script to_numeric_str fs = Dashboard data ys cs ->
  (exists y,
     year_slider ys = SliderRefused y y
     /\ 1990 <= y <= 2023
     /\ forall r, In r data -> m_year r = y)
  \/ (exists lo hi,
        year_slider ys
        = SliderSet {| min_value := lo; max_value := hi; start_value := hi |}
        /\ 1990 <= lo /\ lo < hi /\ hi <= 2023
        /\ (exists r, In r data /\ m_year r = lo)
        /\ (exists r, In r data /\ m_year r = hi)
        /\ forall r, In r data -> lo <= m_year r <= hi).
Proof.
  intros H. apply dashboard_inv in H. destruct H as [Hload [Hne [-> _]]].
  pose proof (final_year_range fs data Hload) as Hrange.
  rewrite Forall_forall in Hrange.
  destruct (year_slider_cases data Hne)
    as [lo [hi [[r1 [Hr1 E1]] [[r2 [Hr2 E2]] [Hall Hs]]]]].
  pose proof (Hrange r1 Hr1). pose proof (Hrange r2 Hr2). pose proof (Hall r1 Hr1).
  rewrite Hs. destruct (lo <? hi) eqn:Hlt.
  - right. apply Z.ltb_lt in Hlt. exists lo, hi.
    split; [reflexivity|]. repeat split; try lia; try (apply Hall; assumption).
    + exists r1. auto.
    + exists r2. auto.
  - left. apply Z.ltb_ge in Hlt. assert (Elh : hi = lo) by lia. rewrite Elh.
    exists lo. split; [reflexivity|]. split; [lia|].
    intros r Hr. pose proof (Hall r Hr). lia.
Qed.

(** X12: when the dashboard is built, the countries selected at the start are
    options of the selector: a list without repetition of one to eight
    countries of the data, all of them major countries as soon as the data
    has one. *)
Theorem default_selection_valid (fs : filesystem) (data : list (merged Z))
  (ys : list Z) (cs : list (option string)) :
  script to_numeric_str fs = Dashboard data ys cs ->
  let defaults := default_countries cs in
  defaults <> []
  /\ (List.length defaults <= 8)%nat
  /\ NoDup defaults
  /\ (forall c, In c defaults -> In c cs /\ exists r, In r data /\ m_country r = c)
  /\ (forall r m, In r data -> m_country r = Some m -> In m major_countries ->
      forall d, In d defaults -> exists m', d = Some m' /\ In m' major_countries).
Proof.
  intros H. apply dashboard_inv in H. destruct H as [Hload [Hne [_ Hcs]]].
  destruct (countries_ok data (final_country_present _ _ _ Hload))
    as [cs' [Hcs' [Hnd Hmem]]].
  assert (cs' = cs) by congruence. subst cs'.
  destruct (default_countries_spec cs) as [Hsub [Hlen [Hnonempty [Hnodup Hmajor]]]].
  cbv zeta. split; [|split; [|split; [|split]]].
  - apply Hnonempty. destruct data as [|r data]; [contradiction|].
    intros E. assert (Hin : In (m_country r) cs)
      by (apply Hmem; left; reflexivity).
    rewrite E in Hin. exact Hin.
  - exact Hlen.
  - apply Hnodup. exact Hnd.
  - intros c Hc. split; [apply Hsub; assumption|].
    apply Hsub, Hmem, in_map_iff in Hc. destruct Hc as [r [E Hr]].
    exists r. auto.
  - intros r m Hr Hm Hmaj. apply (Hmajor m); [|assumption].
    apply Hmem. rewrite <- Hm. apply in_map. assumption.
Qed.

End Controls.

(** ** The order of positive floats *)

Lemma SFleb_finite_pos_intro (m1 m2 : positive) (e1 e2 : Z) :
  e1 < e2 \/ (e1 = e2 /\ (m1 <= m2)%positive) ->
  SFleb (S754_finite false m1 e1) (S754_finite false m2 e2) = true.
Proof.
  unfold SFleb, SFcompare. change (Pos.compare_cont Eq) with Pos.compare.
  intros H. destruct (Z.compare_spec e1 e2) as [He|He|He]; try reflexivity; try lia.
  destruct (Pos.compare_spec m1 m2) as [Hm|Hm|Hm]; try reflexivity. lia.
Qed.

Lemma SFltb_finite_pos (m1 m2 : positive) (e1 e2 : Z) :
  SFltb (S754_finite false m1 e1) (S754_finite false m2 e2) = true <->
  e1 < e2 \/ (e1 = e2 /\ (m1 < m2)%positive).
Proof.
  unfold SFltb, SFcompare. change (Pos.compare_cont Eq) with Pos.compare.
  destruct (Z.compare_spec e1 e2) as [He|He|He];
    [destruct (Pos.compare_spec m1 m2) as [Hm|Hm|Hm]| |];
    split; intros H; try discriminate; try reflexivity; try lia.
Qed.

Lemma positive_cases (x : float) :
  (0 <? x)%float = true ->
  (exists m e, Prim2SF x = S754_finite false m e)
  \/ Prim2SF x = S754_infinity false.
Proof.
  rewrite FloatAxioms.ltb_spec.
  replace (Prim2SF 0%float) with (S754_zero false) by (vm_compute; reflexivity).
  destruct (Prim2SF x) as [s|s| |s m e]; try discriminate;
    destruct s; try discriminate; intros _; eauto.
Qed.

Lemma leb_refl_pos (x : float) : (0 <? x)%float = true -> (x <=? x)%float = true.
Proof.
  intros H. rewrite FloatAxioms.leb_spec.
  destruct (positive_cases x H) as [[m [e ->]]| ->]; [|reflexivity].
  apply SFleb_finite_pos_intro. right. split; [reflexivity|lia].
Qed.

Lemma leb_trans_pos (x y z : float) :
  (0 <? x)%float = true -> (0 <? y)%float = true -> (0 <? z)%float = true ->
  (x <=? y)%float = true -> (y <=? z)%float = true -> (x <=? z)%float = true.
Proof.
  intros Hx Hy Hz. rewrite !FloatAxioms.leb_spec.
  destruct (positive_cases x Hx) as [[m1 [e1 ->]]| ->],
    (positive_cases y Hy) as [[m2 [e2 ->]]| ->],
    (positive_cases z Hz) as [[m3 [e3 ->]]| ->];
    try reflexivity; try discriminate; try (intros H; discriminate H).
  intros H1 H2. apply SFleb_finite_pos in H1, H2.
  apply SFleb_finite_pos_intro. lia.
Qed.

Lemma ltb_leb_pos (x y : float) :
  (0 <? x)%float = true -> (0 <? y)%float = true ->
  (if (x <? y)%float then (x <=? y)%float else (y <=? x)%float) = true.
Proof.
  intros Hx Hy. rewrite FloatAxioms.ltb_spec, !FloatAxioms.leb_spec.
  destruct (positive_cases x Hx) as [[m1 [e1 ->]]| ->],
    (positive_cases y Hy) as [[m2 [e2 ->]]| ->]; try reflexivity.
  destruct (SFltb (S754_finite false m1 e1) (S754_finite false m2 e2)) eqn:E.
  - apply SFltb_finite_pos in E. apply SFleb_finite_pos_intro. lia.
  - apply SFleb_finite_pos_intro.
    assert (N : ~ (e1 < e2 \/ (e1 = e2 /\ (m1 < m2)%positive))).
    { intros H. apply SFltb_finite_pos in H. congruence. }
    lia.
Qed.

Lemma float_max_spec (x y : float) :
  (0 <? x)%float = true -> (0 <? y)%float = true ->
  (float_max x y = x \/ float_max x y = y)
  /\ (x <=? float_max x y)%float = true
  /\ (y <=? float_max x y)%float = true.
Proof.
  intros Hx Hy. pose proof (ltb_leb_pos x y Hx Hy) as H.
  unfold float_max. destruct (x <? y)%float.
  - repeat split; auto using leb_refl_pos.
  - repeat split; auto using leb_refl_pos.
Qed.

Lemma fold_float_max_spec (l : list float) (x : float) :
  (0 <? x)%float = true -> Forall (fun y => (0 <? y)%float = true) l ->
  In (fold_left float_max l x) (x :: l)
  /\ forall y, In y (x :: l) -> (y <=? fold_left float_max l x)%float = true.
Proof.
  intros Hx Hl. revert x Hx. induction Hl as [|a l Ha Hl IH]; intros x Hx; simpl.
  - split; [auto|]. intros y [<-|[]]. apply leb_refl_pos. assumption.
  - destruct (float_max_spec x a Hx Ha) as [Hor [Hxa Haa]].
    assert (Hm : (0 <? float_max x a)%float = true)
      by (destruct Hor as [-> | ->]; assumption).
    destruct (IH _ Hm) as [Hin Hle].
    assert (Hpos : (0 <? fold_left float_max l (float_max x a))%float = true).
    { destruct Hin as [<-|Hin]; [assumption|].
      rewrite Forall_forall in Hl. apply Hl. assumption. }
    split.
    + destruct Hin as [Hin|Hin]; [|auto].
      rewrite <- Hin. destruct Hor as [-> | ->]; auto.
    + intros y [<-|[<-|Hy]].
      * apply (leb_trans_pos _ (float_max x a)); auto.
        apply Hle. left. reflexivity.
      * apply (leb_trans_pos _ (float_max x a)); auto.
        apply Hle. left. reflexivity.
      * apply Hle. right. assumption.
Qed.

(** The largest value of a column of positive numbers. *)
Lemma series_max_spec (l : list float) :
  l <> [] -> Forall (fun y => (0 <? y)%float = true) l ->
  In (series_max l) l
  /\ forall y, In y l -> (y <=? series_max l)%float = true.
Proof.
  intros Hne Hl. unfold series_max.
  rewrite filter_all
    by (eapply Forall_impl; [|exact Hl]; intros a Ha; simpl;
        rewrite (positive_not_nan a Ha); reflexivity).
  destruct l as [|x l]; [contradiction|].
  inversion Hl; subst. apply fold_float_max_spec; assumption.
Qed.

(** ** The views *)

Lemma select_In (data : list (merged Z)) (year : Z) (sel : list (option string))
  (r : merged Z) :
  In r (select data year sel)
  <-> In r data /\ m_year r = year /\ In (m_country r) sel.
Proof.
  unfold select. rewrite filter_In, andb_true_iff, Z.eqb_eq, existsb_exists.
  split.
  - intros [Hr [Hy [c [Hc E]]]]. apply country_eqb_eq in E. subst c. auto.
  - intros [Hr [Hy Hc]]. repeat split; auto.
    exists (m_country r). split; [assumption|apply country_eqb_refl].
Qed.

Lemma filter_or_perm {A : Type} (p q : A -> bool) (l : list A) :
  (forall a, In a l -> p a = true -> q a = true -> False) ->
  Permutation (filter p l ++ filter q l) (filter (fun a => p a || q a) l).
Proof.
  induction l as [|a l IH]; intros H; simpl; [constructor|].
  assert (IH' := IH (fun b Hb => H b (or_intror Hb))).
  destruct (p a) eqn:Ep, (q a) eqn:Eq; simpl.
  - exfalso. exact (H a (or_introl eq_refl) Ep Eq).
  - apply perm_skip. exact IH'.
  - apply Permutation_sym, Permutation_cons_app, Permutation_sym. exact IH'.
  - exact IH'.
Qed.

Lemma steps_from_years (i : nat) (n : positive) (data : list (merged Z))
  (sel : list (option string)) (ys : list Z) :
  map step_year (steps_from i n data sel ys) = ys
  /\ flat_map year_data (steps_from i n data sel ys)
     = flat_map (fun y => select data y sel) ys.
Proof.
  revert i. induction ys as [|y ys IH]; intros i; simpl; [auto|].
  destruct (IH (S i)) as [H1 H2]. rewrite H1, H2. auto.
Qed.

Lemma select_years_perm (data : list (merged Z)) (sel : list (option string))
  (ys : list Z) :
  NoDup ys ->
  Permutation
    (flat_map (fun y => select data y sel) ys)
    (filter (fun r => existsb (Z.eqb (m_year r)) ys
                      && existsb (country_eqb (m_country r)) sel) data).
Proof.
  induction 1 as [|y ys Hy Hnd IH]; simpl.
  - induction data as [|r data IHd]; simpl; [constructor|exact IHd].
  - rewrite IH. unfold select.
    rewrite filter_or_perm.
    + apply Permutation_refl'. apply filter_ext. intros r.
      destruct (existsb (country_eqb (m_country r)) sel);
        rewrite ?andb_true_r, ?andb_false_r; reflexivity.
    + intros r _ H1 H2. apply andb_prop in H1, H2.
      destruct H1 as [H1 _], H2 as [H2 _]. apply Z.eqb_eq in H1.
      apply existsb_exists in H2. destruct H2 as [y' [Hy' E]].
      apply Z.eqb_eq in E. apply Hy. congruence.
Qed.

(** X14: the animation has one step for each year of the data, in increasing
    order, and its steps together draw every record of the selected
    countries exactly once. *)
Theorem animation_covers_selection (data : list (merged Z))
  (sel : list (option string)) :
  map step_year (animation data (years data) sel) = years data
  /\ Sorted Z.lt (map step_year (animation data (years data) sel))
  /\ Permutation
       (flat_map year_data (animation data (years data) sel))
       (filter (fun r => existsb (country_eqb (m_country r)) sel) data).
Proof.
  unfold animation.
  destruct (steps_from_years 0 (Pos.of_nat (List.length (years data))) data sel
              (years data)) as [H1 H2].
  rewrite H1, H2.
  destruct (sorted_by_strict Z.leb Z.lt Z_leb_total Z_leb_strict
              (unique Z.eqb (map m_year data)) (unique_NoDup Z.eqb Z.eqb_eq _))
    as [Hsorted _].
  split; [reflexivity|]. split; [exact Hsorted|].
  assert (Hnd : NoDup (years data)).
  { apply (Permutation_NoDup (l := unique Z.eqb (map m_year data))).
    - apply Permutation_sym, sorted_by_perm.
    - apply (unique_NoDup Z.eqb Z.eqb_eq). }
  rewrite (select_years_perm data sel _ Hnd).
  apply Permutation_refl'. apply filter_ext_in. intros r Hr.
  assert (E : existsb (Z.eqb (m_year r)) (years data) = true).
  { apply existsb_exists. exists (m_year r). split; [|apply Z.eqb_refl].
    apply years_In. apply in_map. assumption. }
  rewrite E. reflexivity.
Qed.

Lemma sorted_range_length (l : list Z) (a b : Z) :
  StronglySorted Z.lt l -> (forall y, In y l -> a <= y <= b) ->
  Z.of_nat (List.length l) <= Z.max 0 (b - a + 1).
Proof.
  intros Hs. revert a. induction Hs as [|x l Hs IH Hx]; intros a Hr; simpl List.length.
  - lia.
  - assert (Hxr := Hr x (or_introl eq_refl)).
    assert (Hl : forall y, In y l -> x + 1 <= y <= b).
    { intros y Hy. rewrite Forall_forall in Hx. specialize (Hx y Hy).
      specialize (Hr y (or_intror Hy)). lia. }
    specialize (IH (x + 1) Hl). lia.
Qed.

Lemma years_sorted (data : list (merged Z)) : StronglySorted Z.lt (years data).
Proof.
  apply Sorted_StronglySorted; [intros x y z; apply Z.lt_trans|].
  apply (sorted_by_strict Z.leb Z.lt Z_leb_total Z_leb_strict).
  apply (unique_NoDup Z.eqb Z.eqb_eq).
Qed.

(** The quotients the progress bar can get for at most 34 steps. *)
Lemma progress_table (n k : nat) :
  (1 <= n <= 34)%nat -> (k < n)%nat ->
  (0 <? true_div (Pos.of_succ_nat k) (Pos.of_nat n))%float = true
  /\ (true_div (Pos.of_succ_nat k) (Pos.of_nat n) <=? 1)%float = true
  /\ true_div (Pos.of_nat n) (Pos.of_nat n) = 1%float.
Proof.
  intros Hn Hk.
  assert (T : forallb
                (fun n =>
                   forallb (fun k =>
                              (0 <? true_div (Pos.of_succ_nat k) (Pos.of_nat n))%float
                              && (true_div (Pos.of_succ_nat k) (Pos.of_nat n) <=? 1)%float)
                           (seq 0 n)
                   && (true_div (Pos.of_nat n) (Pos.of_nat n) =? 1)%float)
                (seq 1 34) = true)
    by (vm_compute; reflexivity).
  rewrite forallb_forall in T. specialize (T n).
  assert (Hin : In n (seq 1 34)) by (apply in_seq; lia).
  apply T in Hin. apply andb_prop in Hin. destruct Hin as [Hall Hone].
  rewrite forallb_forall in Hall. specialize (Hall k).
  assert (Hk' : In k (seq 0 n)) by (apply in_seq; lia).
  apply Hall in Hk'. apply andb_prop in Hk'. destruct Hk' as [H1 H2].
  repeat split; try assumption.
  clear - Hone.
  rewrite FloatAxioms.eqb_spec in Hone.
  replace (Prim2SF 1%float) with (S754_finite false 4503599627370496 (-52)) in Hone
    by (vm_compute; reflexivity).
  apply Prim2SF_inj.
  replace (Prim2SF 1%float) with (S754_finite false 4503599627370496 (-52))
    by (vm_compute; reflexivity).
  revert Hone. generalize (Prim2SF (true_div (Pos.of_nat n) (Pos.of_nat n))).
  intros x Hx. unfold SFeqb, SFcompare in Hx.
  destruct x as [s|s| |s m e]; try discriminate; try (destruct s; discriminate).
  destruct s; [discriminate|].
  change (Pos.compare_cont Eq) with Pos.compare in Hx.
  destruct (Z.compare_spec e (-52)) as [He|He|He]; try discriminate.
  destruct (Pos.compare m 4503599627370496) eqn:Hm; try discriminate.
  apply Pos.compare_eq in Hm. subst. reflexivity.
Qed.

Lemma steps_from_progress (i : nat) (n : positive) (data : list (merged Z))
  (sel : list (option string)) (ys : list Z) (s : step) :
  In s (steps_from i n data sel ys) ->
  exists k, (i <= k < i + List.length ys)%nat
            /\ progress s = true_div (Pos.of_succ_nat k) n.
Proof.
  revert i. induction ys as [|y ys IH]; intros i; simpl; [tauto|].
  intros [<-|H].
  - exists i. simpl. split; [lia|reflexivity].
  - destruct (IH _ H) as [k [Hk E]]. exists k. split; [lia|assumption].
Qed.

Lemma steps_from_last (i : nat) (n : positive) (data : list (merged Z))
  (sel : list (option string)) (ys : list Z) (y : Z) :
  exists l,
    map progress (steps_from i n data sel (ys ++ [y]))
    = l ++ [true_div (Pos.of_succ_nat (i + List.length ys)) n].
Proof.
  revert i. induction ys as [|y' ys IH]; intros i; simpl.
  - exists []. rewrite Nat.add_0_r. reflexivity.
  - destruct (IH (S i)) as [l Hl]. rewrite Hl.
    exists (true_div (Pos.of_succ_nat i) n :: l).
    replace (S i + List.length ys)%nat with (i + S (List.length ys))%nat by lia.
    reflexivity.
Qed.

Lemma steps_from_last_one (n : positive) (data : list (merged Z))
  (sel : list (option string)) (ys : list Z) :
  ys <> [] -> true_div (Pos.of_nat (List.length ys)) n = 1%float ->
  exists l, map progress (steps_from 0 n data sel ys) = l ++ [1%float].
Proof.
  intros Hne H1. destruct (exists_last Hne) as [ys' [y' E]]. subst ys.
  destruct (steps_from_last 0 n data sel ys' y') as [l Hl].
  exists l. rewrite Hl. f_equal. f_equal. rewrite <- H1. f_equal.
  rewrite length_app. simpl. rewrite Nat.add_1_r. apply Pos.of_nat_succ.
Qed.

Section Views.

Variable to_numeric_str : string -> float.

(** X13: a chart is drawn only for a selection with at least one matching
    record; it shows exactly the records of the selected year and countries,
    and the value that scales its horizontal axis is the GNI of a record of
    the dataset, positive and not below the GNI of any record. *)
Theorem chart_view (fs : filesystem) (data : list (merged Z)) (ys : list Z)
  (cs sel : list (option string)) (y : Z) (filtered : list (merged Z))
  (mx : float) :
  script to_numeric_str fs = Dashboard data ys cs ->
  main_view data y sel = Chart filtered mx ->
  sel <> [] /\ filtered <> []
  /\ (forall r, In r filtered
                <-> In r data /\ m_year r = y /\ In (m_country r) sel)
  /\ (exists r, In r data /\ gni_per_capita r = mx)
  /\ (0 <? mx)%float = true
  /\ forall r, In r data -> (gni_per_capita r <=? mx)%float = true.
Proof.
  intros Hd Hv. apply dashboard_inv in Hd. destruct Hd as [Hload [Hne _]].
  pose proof (final_gni_positive to_numeric_str fs data Hload) as Hpos.
  unfold main_view in Hv. destruct sel as [|c sel]; [discriminate|].
  destruct (select data y (c :: sel)) as [|r0 rs] eqn:Es; [discriminate|].
  injection Hv as <- <-.
  assert (Hcol : Forall (fun x => (0 <? x)%float = true) (map gni_per_capita data)).
  { apply Forall_forall. intros x Hx. apply in_map_iff in Hx.
    destruct Hx as [r [<- Hr]]. rewrite Forall_forall in Hpos. auto. }
  assert (Hne' : map gni_per_capita data <> []).
  { destruct data; [contradiction|discriminate]. }
  destruct (series_max_spec _ Hne' Hcol) as [Hin Hmax].
  split; [discriminate|]. split; [discriminate|]. split; [|split; [|split]].
  - intros r. rewrite <- Es. apply select_In.
  - apply in_map_iff in Hin. destruct Hin as [r [E Hr]]. exists r. auto.
  - rewrite Forall_forall in Hcol. auto.
  - intros r Hr. apply Hmax. apply in_map. assumption.
Qed.

(** X15: the animation of a dashboard has at most 34 steps, every value it
    gives to the progress bar lies in the interval from 0 (excluded) to 1,
    and the last one is 1. *)
Theorem animation_progress (fs : filesystem) (data : list (merged Z))
  (ys : list Z) (cs sel : list (option string)) :
  script to_numeric_str fs = Dashboard data ys cs ->
  (1 <= List.length (animation data ys sel) <= 34)%nat
  /\ Forall (fun s => (0 <? progress s)%float = true
                      /\ (progress s <=? 1)%float = true)
            (animation data ys sel)
  /\ exists l, map progress (animation data ys sel) = l ++ [1%float].
Proof.
  intros Hd. apply dashboard_inv in Hd. destruct Hd as [Hload [Hne [-> _]]].
  pose proof (final_year_range to_numeric_str fs data Hload) as Hrange.
  assert (Hlen : (1 <= List.length (years data) <= 34)%nat).
  { split.
    - destruct data as [|r data]; [contradiction|].
      assert (Hin : In (m_year r) (years (r :: data)))
        by (apply years_In; left; reflexivity).
      destruct (years (r :: data)); [contradiction|simpl; lia].
    - assert (H := sorted_range_length (years data) 1990 2023 (years_sorted data)).
      assert (Hb : forall y, In y (years data) -> 1990 <= y <= 2023).
      { intros y Hy. apply years_In, in_map_iff in Hy. destruct Hy as [r [<- Hr]].
        rewrite Forall_forall in Hrange. auto. }
      specialize (H Hb). lia. }
  assert (Hsteps : List.length (animation data (years data) sel)
                   = List.length (years data)).
  { unfold animation.
    destruct (steps_from_years 0 (Pos.of_nat (List.length (years data))) data sel
                (years data)) as [H1 _].
    rewrite <- H1 at 3. rewrite length_map. reflexivity. }
  split; [rewrite Hsteps; exact Hlen|]. split.
  - apply Forall_forall. intros s Hs. unfold animation in Hs.
    apply steps_from_progress in Hs. destruct Hs as [k [Hk ->]].
    destruct (progress_table (List.length (years data)) k Hlen) as [H1 [H2 _]];
      [lia|]. auto.
  - unfold animation. apply steps_from_last_one.
    + intros E. rewrite E in Hlen. simpl in Hlen. lia.
    + destruct (progress_table (List.length (years data)) 0 Hlen) as [_ [_ H1]];
        [lia|exact H1].
Qed.

End Views.

(** ** The further properties at sample inputs *)

Lemma parse_number_ignores_padding_witness :
  parse_number (VStr "  3.28M ") = parse_number (VStr "3.28M").
Proof.
  apply (parse_number_ignores_padding "  " "3.28M" " "); reflexivity.
Defined.

Lemma parse_number_suffix_scales_witness :
  parse_number (VStr " 25.5k ") = Ok (25.5 * 1000)%float
  /\ parse_number (VStr "1.5B") = Ok (1.5 * 1000000000)%float.
Proof.
  split.
  - apply (parse_number_suffix_scales " 25.5k " "25.5" 25.5%float); reflexivity.
  - apply (parse_number_suffix_scales "1.5B" "1.5" 1.5%float); reflexivity.
Defined.

Lemma parse_number_unknown_suffix_witness :
  parse_number (VStr "407K") = Ok nan /\ parse_number (VStr " 12% ") = Ok nan.
Proof.
  split.
  - apply (parse_number_unknown_suffix "407K" "407" "K");
      try reflexivity; discriminate.
  - apply (parse_number_unknown_suffix " 12% " "12" "%");
      try reflexivity; discriminate.
Defined.

Lemma ffill_keeps_present_cells_witness :
  nth 2 (cells (ffill_row (mkrow "A" [VInt 10; VFloat nan; VInt 30]))) (VFloat nan)
  = VInt 30.
Proof.
  apply (ffill_keeps_present_cells (mkrow "A" [VInt 10; VFloat nan; VInt 30])).
  reflexivity.
Defined.

Lemma ffill_named_row_complete_witness :
  Forall (fun v => isna v = false)
         (cells (ffill_row (mkrow "Albania" [VFloat nan; VFloat nan; VStr "3.28M"])))
  /\ nth 1 (cells (ffill_row (mkrow "Albania" [VFloat nan; VFloat nan; VStr "3.28M"])))
         (VFloat nan) = VStr "Albania".
Proof.
  destruct (ffill_named_row_complete
              (mkrow "Albania" [VFloat nan; VFloat nan; VStr "3.28M"]) "Albania"
              eq_refl) as [H1 H2].
  split; [exact H1|]. apply H2; [simpl; lia|]. repeat constructor.
Defined.

Lemma load_file_not_found_witness :
  split_fs "app/data/lex.csv"%string <> None
  /\ load_and_process_data to_numeric_dec split_fs = Raise FileNotFoundError.
Proof.
  split; [discriminate|].
  apply (load_file_not_found to_numeric_dec split_fs). left. reflexivity.
Defined.

Lemma page_outcomes_witness :
  load_and_process_data to_numeric_dec short_lex_fs
  = Ok [ {| m_country := Some "Albania"%string; m_year := 1990;
            population := 3290000; life_expectancy := 73.25;
            gni_per_capita := 4520 |} ]
  /\ exists y, open_page to_numeric_dec short_lex_fs = PageSliderRefused y y
               /\ y = 1990.
Proof.
  assert (H : load_and_process_data to_numeric_dec short_lex_fs
              = Ok [ {| m_country := Some "Albania"%string; m_year := 1990;
                        population := 3290000; life_expectancy := 73.25;
                        gni_per_capita := 4520 |} ])
    by (vm_compute; reflexivity).
  split; [exact H|].
  destruct (page_outcomes to_numeric_dec short_lex_fs) as [_ [_ Hp]].
  destruct (Hp _ H) as [Hone _]; [discriminate|].
  destruct Hone as [y [Hy Hall]].
  - intros r1 r2 [<-|[]] [<-|[]]. reflexivity.
  - exists y. split; [exact Hy|]. symmetry. apply (Hall _ (or_introl eq_refl)).
Defined.

Lemma year_slider_bounds_witness :
  (exists lo hi,
     year_slider [1990; 2005; 2023]
     = SliderSet {| min_value := lo; max_value := hi; start_value := hi |}
     /\ lo = 1990 /\ hi = 2023)
  /\ exists y, year_slider [1990] = SliderRefused y y /\ 1990 <= y <= 2023.
Proof.
  split.
  - assert (H : exists data cs,
               script to_numeric_dec world_fs = Dashboard data [1990; 2005; 2023] cs)
      by (eexists _, _; vm_compute; reflexivity).
    destruct H as [data [cs H]].
    destruct (year_slider_bounds to_numeric_dec world_fs _ _ _ H)
      as [[y [Hs _]]|[lo [hi [Hs _]]]].
    + exfalso. vm_compute in Hs. discriminate Hs.
    + exists lo, hi. split; [exact Hs|].
      assert (E := Hs). vm_compute in E. injection E. intros. subst. auto.
  - assert (H : exists data cs,
               script to_numeric_dec short_lex_fs = Dashboard data [1990] cs)
      by (eexists _, _; vm_compute; reflexivity).
    destruct H as [data [cs H]].
    destruct (year_slider_bounds to_numeric_dec short_lex_fs _ _ _ H)
      as [[y [Hs [Hy _]]]|[lo [hi [Hs _]]]].
    + exists y. auto.
    + exfalso. vm_compute in Hs. discriminate Hs.
Defined.

Lemma default_selection_valid_witness :
  let cs := [Some "Albania"; Some "China"; Some "India"]%string in
  default_countries cs = [Some "China"; Some "India"]%string
  /\ default_countries cs <> []
  /\ (List.length (default_countries cs) <= 8)%nat
  /\ NoDup (default_countries cs).
Proof.
  assert (H : exists data ys,
             script to_numeric_dec world_fs
             = Dashboard data ys [Some "Albania"; Some "China"; Some "India"]%string)
    by (eexists _, _; vm_compute; reflexivity).
  destruct H as [data [ys H]].
  destruct (default_selection_valid to_numeric_dec world_fs _ _ _ H)
    as [H1 [H2 [H3 _]]].
  cbv zeta. split; [reflexivity|]. auto.
Defined.

Lemma chart_view_witness :
  exists data filtered mx,
    main_view data 2005 [Some "China"; Some "India"]%string = Chart filtered mx
    /\ mx = 22100%float
    /\ filtered <> []
    /\ (0 <? mx)%float = true
    /\ forall r, In r data -> (gni_per_capita r <=? mx)%float = true.
Proof.
  assert (H : exists data ys cs filtered,
             script to_numeric_dec world_fs = Dashboard data ys cs
             /\ main_view data 2005 [Some "China"; Some "India"]%string
                = Chart filtered 22100%float)
    by (eexists _, _, _, _; split; vm_compute; reflexivity).
  destruct H as [data [ys [cs [filtered [H Hv]]]]].
  destruct (chart_view to_numeric_dec world_fs _ _ _ _ _ _ _ H Hv)
    as [_ [H2 [_ [_ [H5 H6]]]]].
  exists data, filtered, 22100%float. auto.
Defined.

Lemma animation_progress_witness :
  exists data ys cs,
    script to_numeric_dec world_fs = Dashboard data ys cs
    /\ map progress (animation data ys [Some "India"%string])
       = [true_div 1 3; true_div 2 3; 1%float]
    /\ (1 <= List.length (animation data ys [Some "India"%string]) <= 34)%nat
    /\ Forall (fun s => (0 <? progress s)%float = true
                        /\ (progress s <=? 1)%float = true)
              (animation data ys [Some "India"%string])
    /\ exists l, map progress (animation data ys [Some "India"%string])
                 = l ++ [1%float].
Proof.
  eexists _, _, _. split; [vm_compute; reflexivity|].
  split; [vm_compute; reflexivity|].
  eapply (animation_progress to_numeric_dec world_fs).
  vm_compute. reflexivity.
Defined.
